(** * Transcript consolidation pipeline of the radio transcription tool

    A shallow embedding of the text-processing functions of
    [phrase_filtering.py] (and of the artifact check of [utils.py]):
    the artifact filter, the segment merger, the stopword-ratio filter,
    the phrase merger and sub-phrase eliminator, the deduplicator and the
    timestamp lookup of [RadioRecorderApp.transcribe_and_extract].

    Modelling conventions.
    - A Python [str] is a [list ascii]; the operations [lower], [strip],
      [split] ... act on the ASCII range (characters above 127 are left
      alone and are not white space).
    - A Python [float] is an exact rational of [Q]; the code only adds,
      subtracts, multiplies, divides and compares them.
    - The [try]/[except] wrappers are left out: on strings, lists and sets
      of strings none of the wrapped operations raises.
    - A Python [dict] whose iteration order matters is an association list
      in insertion order with unique keys; a [set] is a [gset].
    - [sorted(..., reverse=True)] is a stable sort on a descending key. *)

From Stdlib Require Import List String Ascii Arith Bool ZArith QArith Qround Qabs Lia
  Permutation Sorted.
From stdpp Require Import base decidable countable gmap strings.
Import ListNotations.

Local Close Scope Q_scope.
Local Open Scope nat_scope.

Abbreviation str := (list ascii).

(** [py "..."] is the Python string literal with that text. *)
Definition py (s : string) : str := list_ascii_of_string s.

(** ** Python string operations *)

Module PyStr.

Definition space : ascii := " "%char.

(** [c.isspace()] on the ASCII range: TAB..CR, FS..US and the blank. *)
Definition is_space (c : ascii) : bool :=
  let n := nat_of_ascii c in
  ((9 <=? n) && (n <=? 13)) || ((28 <=? n) && (n <=? 32)).

Definition lower_ascii (c : ascii) : ascii :=
  let n := nat_of_ascii c in
  if (65 <=? n) && (n <=? 90) then ascii_of_nat (n + 32) else c.

(** [s.lower()] *)
Definition lower (s : str) : str := map lower_ascii s.

(** [s.isascii()]: every character has a code below 128. *)
Definition isascii (s : str) : bool :=
  forallb (fun c => nat_of_ascii c <? 128) s.

Fixpoint eqb (a b : str) : bool :=
  match a, b with
  | [], [] => true
  | x :: a', y :: b' => Ascii.eqb x y && eqb a' b'
  | _, _ => false
  end.

(** [s.startswith(p)] *)
Fixpoint startswith (p s : str) : bool :=
  match p, s with
  | [], _ => true
  | x :: p', y :: s' => Ascii.eqb x y && startswith p' s'
  | _ :: _, [] => false
  end.

(** [sub in s] *)
Fixpoint contains (sub s : str) : bool :=
  startswith sub s ||
  match s with
  | [] => false
  | _ :: s' => contains sub s'
  end.

(** [s.find(sub)]: the index of the first occurrence, [None] for Python's -1. *)
Fixpoint find (sub s : str) : option nat :=
  if startswith sub s then Some 0
  else match s with
       | [] => None
       | _ :: s' => option_map S (find sub s')
       end.

(** [s.count(sub)]: occurrences that do not overlap, scanned from the left.
    [skip] is the number of characters still covered by the last match. *)
Fixpoint count_from (sub : str) (skip : nat) (s : str) : nat :=
  match s with
  | [] => 0
  | _ :: s' =>
      match skip with
      | S k => count_from sub k s'
      | O => if startswith sub s
             then S (count_from sub (Nat.pred (length sub)) s')
             else count_from sub 0 s'
      end
  end.

Definition count (sub s : str) : nat :=
  match sub with
  | [] => S (length s)
  | _ => count_from sub 0 s
  end.

(** [s.replace(old, new)] for a non-empty [old]. *)
Fixpoint replace_from (old new : str) (skip : nat) (s : str) : str :=
  match s with
  | [] => []
  | c :: s' =>
      match skip with
      | S k => replace_from old new k s'
      | O => if startswith old s
             then new ++ replace_from old new (Nat.pred (length old)) s'
             else c :: replace_from old new 0 s'
      end
  end.

Definition replace (old new s : str) : str := replace_from old new 0 s.

(** [s.lstrip()], [s.rstrip()], [s.strip()] *)
Fixpoint lstrip (s : str) : str :=
  match s with
  | [] => []
  | c :: s' => if is_space c then lstrip s' else s
  end.

Fixpoint rstrip (s : str) : str :=
  match s with
  | [] => []
  | c :: s' =>
      match rstrip s' with
      | [] => if is_space c then [] else [c]
      | r => c :: r
      end
  end.

Definition strip (s : str) : str := rstrip (lstrip s).

(** [s.split()]: the maximal runs of characters that are not white space.
    [cur] is the run being read. *)
Fixpoint split_from (cur : str) (s : str) : list str :=
  match s with
  | [] => match cur with [] => [] | _ => [cur] end
  | c :: s' =>
      if is_space c
      then match cur with
           | [] => split_from [] s'
           | _ => cur :: split_from [] s'
           end
      else split_from (cur ++ [c]) s'
  end.

Definition split (s : str) : list str := split_from [] s.

(** [sep.join(parts)] *)
Fixpoint join (sep : str) (parts : list str) : str :=
  match parts with
  | [] => []
  | [p] => p
  | p :: ps => p ++ sep ++ join sep ps
  end.

(** [s[i:j]] for [0 <= i], [0 <= j] *)
Definition slice {A} (i j : nat) (s : list A) : list A := take (j - i) (drop i s).

(** [set(words)] membership count helpers: [len(set(a) & set(b))] and
    [len(set(a) | set(b))]. *)
Definition word_set (ws : list str) : gset str := list_to_set ws.

(** A text without blanks. *)
Definition blank_free (w : str) : Prop := Forall (fun c => c <> space) w.

End PyStr.

(** [sorted(l, key=key, reverse=True)]: stable, descending. *)
Fixpoint insert_desc {A} (key : A -> nat) (x : A) (l : list A) : list A :=
  match l with
  | [] => [x]
  | y :: l' => if key x <? key y then y :: insert_desc key x l' else x :: l
  end.

Definition sorted_desc {A} (key : A -> nat) (l : list A) : list A :=
  fold_right (insert_desc key) [] l.

(** The order the sort establishes. *)
Definition desc {A} (key : A -> nat) (a b : A) : Prop := key b <= key a.

(** [enumerate(l, start)] *)
Fixpoint enumerate_from {A} (start : nat) (l : list A) : list (nat * A) :=
  match l with
  | [] => []
  | x :: l' => (start, x) :: enumerate_from (S start) l'
  end.

Definition enumerate {A} (l : list A) : list (nat * A) := enumerate_from 0 l.

(** [len(p.split())] *)
Definition word_count (p : str) : nat := length (PyStr.split p).

(** ** Artifact filter *)

(** The prompt handed to the transcriber in [transcribe_and_extract]. *)
Definition WHISPER_PROMPT : str :=
  py "Dit is een Nederlandse radio-uitzending met nieuws, discussies, interviews en gesprekken. Focus op spraak en gesprekken, niet op muziek. De transcriptie moet alle belangrijke woorden en zinnen bevatten, maar muziekteksten en jingles kunnen worden overgeslagen.".

Definition whisper_prompt_indicators : list str :=
  map py
    [ "deze transcriptie moet alle belangrijke woorden en zinnen bevatten";
      "maar muziekteksten en jingles kunnen worden overgeslagen";
      "transcriptie moet alle belangrijke woorden en zinnen bevatten";
      "muziekteksten en jingles kunnen worden overgeslagen";
      "transcriptie";
      "whisper";
      "openai";
      "api";
      "prompt";
      "instruction";
      "alle belangrijke woorden";
      "zinnen bevatten";
      "muziekteksten en jingles";
      "kunnen worden overgeslagen";
      "radio-uitzending";
      "nieuws discussies interviews";
      "focus op spraak";
      "niet op muziek";
      "belangrijke woorden en zinnen";
      "muziekteksten en jingles kunnen worden overgeslagen" ]%string.

Definition suspicious_patterns : list str :=
  map py
    [ "deze transcriptie";
      "transcriptie moet";
      "muziekteksten en jingles";
      "belangrijke woorden";
      "zinnen bevatten";
      "overgeslagen";
      "focus op spraak";
      "niet op muziek";
      "nederlandse radio-uitzending";
      "nieuws discussies interviews";
      "radio-uitzending met nieuws";
      "discussies interviews en gesprekken";
      "focus op spraak en gesprekken";
      "transcriptie moet alle belangrijke";
      "woorden en zinnen bevatten";
      "maar muziekteksten en jingles";
      "kunnen worden overgeslagen" ]%string.

(** The loop over three-word windows: a window longer than 10 characters
    that occurs more than once in the lowered text. *)
Definition repeated_phrase (text_lower : str) (words : list str) : bool :=
  if 3 <? length words then
    let text_without_spaces := PyStr.replace (py " ") (py "") text_lower in
    if 20 <? length text_without_spaces then
      existsb
        (fun i =>
           let phrase := PyStr.join (py " ") (PyStr.slice i (i + 3) words) in
           (10 <? length phrase) && (1 <? PyStr.count phrase text_lower))
        (seq 0 (length words - 2))
    else false
  else false.

(** The [word_counts] loop: some word longer than 3 characters reaches a
    fourth occurrence. *)
Fixpoint excessive_repetition (word_counts : gmap str nat) (words : list str)
  : bool :=
  match words with
  | [] => false
  | word :: rest =>
      if 3 <? length word then
        let n := default 0 (word_counts !! word) + 1 in
        if 3 <? n then true
        else excessive_repetition (<[word := n]> word_counts) rest
      else excessive_repetition word_counts rest
  end.

(** The last check reads [text], the argument as it was given. *)
Definition long_repeated_sequence (text : str) : bool :=
  if 100 <? length text then
    existsb
      (fun i => 2 <? PyStr.count (PyStr.slice i (i + 20) text) text)
      (seq 0 (length text - 20))
  else false.

(** [is_whisper_artifact] of [phrase_filtering.py]. *)
Definition is_whisper_artifact (text : str) : bool :=
  match text with
  | [] => false
  | _ =>
      let text_lower := PyStr.strip (PyStr.lower text) in
      if existsb (fun indicator => PyStr.contains indicator text_lower)
           whisper_prompt_indicators then true
      else if existsb (fun pattern => PyStr.contains pattern text_lower)
                suspicious_patterns then true
      else
        let words := PyStr.split text_lower in
        if repeated_phrase text_lower words then true
        else if excessive_repetition ∅ words then true
        else long_repeated_sequence text
  end.

Module Utils.

Definition whisper_prompt_indicators : list str :=
  map py
    [ "transcriptie";
      "nederlandse radio-uitzending";
      "nieuws discussies interviews";
      "focus op spraak";
      "niet op muziek";
      "belangrijke woorden";
      "zinnen bevatten";
      "muziekteksten en jingles";
      "kunnen worden overgeslagen";
      "radio-uitzending";
      "nieuws discussies interviews";
      "focus op spraak";
      "niet op muziek";
      "belangrijke woorden en zinnen";
      "muziekteksten en jingles kunnen worden overgeslagen" ]%string.

Definition suspicious_patterns : list str :=
  map py
    [ "deze transcriptie";
      "transcriptie moet";
      "muziekteksten en jingles";
      "belangrijke woorden";
      "zinnen bevatten";
      "overgeslagen";
      "focus op spraak";
      "niet op muziek";
      "nederlandse radio-uitzending";
      "nieuws discussies interviews";
      "radio-uitzending met nieuws";
      "discussies interviews en gesprekken";
      "focus op spraak en gesprekken" ]%string.

(** [is_whisper_artifact] of [utils.py]. *)
Definition is_whisper_artifact (text : str) : bool :=
  if (length text =? 0) || (length (PyStr.strip text) <? 10) then false
  else
    let text_lower := PyStr.strip (PyStr.lower text) in
    if existsb (fun indicator => PyStr.contains indicator text_lower)
         whisper_prompt_indicators then true
    else existsb (fun pattern => PyStr.contains pattern text_lower)
           suspicious_patterns.

End Utils.

(** ** Deduplicator *)

(** [phrase_dict]: normalized phrase -> (phrase, timestamps), in insertion
    order. *)
Abbreviation phrase_dict := (list (str * (str * list Q))).

Fixpoint dict_get {V} (k : str) (d : list (str * V)) : option V :=
  match d with
  | [] => None
  | (k', v) :: d' => if PyStr.eqb k k' then Some v else dict_get k d'
  end.

(** [d[k] = v]: an existing key keeps its place, a new one goes last. *)
Fixpoint dict_set {V} (k : str) (v : V) (d : list (str * V)) : list (str * V) :=
  match d with
  | [] => [(k, v)]
  | (k', v') :: d' =>
      if PyStr.eqb k k' then (k, v) :: d' else (k', v') :: dict_set k v d'
  end.

(** [del d[k]] *)
Fixpoint dict_del {V} (k : str) (d : list (str * V)) : list (str * V) :=
  match d with
  | [] => []
  | (k', v') :: d' => if PyStr.eqb k k' then d' else (k', v') :: dict_del k d'
  end.

Definition normalize_phrase (phrase : str) : str :=
  PyStr.join (py " ") (PyStr.split (PyStr.lower phrase)).

(** The inner [for ... in list(phrase_dict.items())] up to its [break]:
    the first entry one of whose key and [normalized_phrase] contains the
    other. *)
Fixpoint first_similar (normalized_phrase : str) (items : phrase_dict)
  : option (str * (str * list Q)) :=
  match items with
  | [] => None
  | (existing_norm, v) :: rest =>
      if PyStr.contains normalized_phrase existing_norm
         || PyStr.contains existing_norm normalized_phrase
      then Some (existing_norm, v)
      else first_similar normalized_phrase rest
  end.

Definition dedup_step (d : phrase_dict) (entry : str * list Q) : phrase_dict :=
  let '(phrase, timestamps) := entry in
  let normalized_phrase := normalize_phrase phrase in
  match dict_get normalized_phrase d with
  | Some (existing_phrase, existing_times) =>
      let merged_times := existing_times ++ timestamps in
      if length existing_phrase <? length phrase
      then dict_set normalized_phrase (phrase, merged_times) d
      else dict_set normalized_phrase (existing_phrase, merged_times) d
  | None =>
      match first_similar normalized_phrase d with
      | Some (existing_norm, (existing_phrase, existing_times)) =>
          let merged_times := existing_times ++ timestamps in
          if length existing_phrase <? length phrase
          then dict_set normalized_phrase (phrase, merged_times)
                 (dict_del existing_norm d)
          else dict_set existing_norm (existing_phrase, merged_times) d
      | None => dict_set normalized_phrase (phrase, timestamps) d
      end
  end.

Definition deduplicate_phrases (phrases_with_times : list (str * list Q))
  : list (str * list Q) :=
  match phrases_with_times with
  | [] => phrases_with_times
  | _ =>
      let d := fold_left dedup_step phrases_with_times [] in
      sorted_desc (fun x => length (fst x)) (map snd d)
  end.

(** ** Segment merger *)

Record Segment := mkSegment { start : Q; end_ : Q; text : str }.

(** The longest run of equal words starting at the heads of two lists (the
    [while] loop of the brute-force scan). *)
Fixpoint common_run (a b : list str) : nat :=
  match a, b with
  | x :: a', y :: b' => if PyStr.eqb x y then S (common_run a' b') else 0
  | _, _ => 0
  end.

Definition max_common_length (words1_list words2_list : list str) : nat :=
  fold_left
    (fun m i =>
       fold_left
         (fun m j =>
            Nat.max m (common_run (drop i words1_list) (drop j words2_list)))
         (seq 0 (length words2_list)) m)
    (seq 0 (length words1_list)) 0.

Definition calculate_text_similarity (text1 text2 : str) : Q :=
  match text1, text2 with
  | [], _ | _, [] => 0%Q
  | _, _ =>
      let text1_lower := PyStr.strip (PyStr.lower text1) in
      let text2_lower := PyStr.strip (PyStr.lower text2) in
      if PyStr.contains text1_lower text2_lower
         || PyStr.contains text2_lower text1_lower
      then (9 # 10)%Q
      else
        let words1 := PyStr.word_set (PyStr.split text1_lower) in
        let words2 := PyStr.word_set (PyStr.split text2_lower) in
        if (size words1 =? 0) || (size words2 =? 0) then 0%Q
        else
          let intersection := size (words1 ∩ words2) in
          let union := size (words1 ∪ words2) in
          if union =? 0 then 0%Q
          else
            let base_similarity :=
              (Z.of_nat intersection # Pos.of_nat union)%Q in
            let base_similarity :=
              if 3 <=? max_common_length (PyStr.split text1_lower)
                         (PyStr.split text2_lower)
              then (base_similarity + (2 # 10))%Q
              else base_similarity in
            if Qlt_le_dec base_similarity 1 then base_similarity else 1%Q
  end.

Definition is_substring_or_similar (text1 text2 : str) : bool :=
  match text1, text2 with
  | [], _ | _, [] => false
  | _, _ =>
      let text1_lower := PyStr.strip (PyStr.lower text1) in
      let text2_lower := PyStr.strip (PyStr.lower text2) in
      if PyStr.contains text1_lower text2_lower
         || PyStr.contains text2_lower text1_lower
      then true
      else
        if Qlt_le_dec (8 # 10) (calculate_text_similarity text1_lower text2_lower)
        then true else false
  end.

(** [max(texts, key=len)]: the first text of greatest length. *)
Definition longest (first : str) (others : list str) : str :=
  fold_left (fun best t => if length best <? length t then t else best)
    others first.

Definition is_empty (s : str) : bool :=
  match s with [] => true | _ => false end.

Definition is_empty_list {A} (l : list A) : bool :=
  match l with [] => true | _ => false end.

Definition merge_text_segments (texts : list str) : str :=
  match texts with
  | [] => []
  | [t] => t
  | _ =>
      let unique_texts :=
        List.filter (fun t => negb (is_empty t)) (map PyStr.strip texts) in
      match unique_texts with
      | [] => []
      | [t] => t
      | t :: others =>
          let base_text := longest t others in
          let merged_parts :=
            base_text ::
            List.filter
              (fun t => negb (PyStr.eqb t base_text)
                        && negb (is_substring_or_similar t base_text))
              unique_texts in
          match merged_parts with
          | [p] => p
          | _ =>
              let final_text := PyStr.join (py " ") merged_parts in
              let final_text := PyStr.replace (py "  ") (py " ") final_text in
              PyStr.strip final_text
          end
      end
  end.

(** [min(...)] and [max(...)] over a non-empty group. *)
Definition min_of (first : Q) (others : list Q) : Q :=
  fold_left (fun m x => if Qlt_le_dec x m then x else m) others first.

Definition max_of (first : Q) (others : list Q) : Q :=
  fold_left (fun m x => if Qlt_le_dec m x then x else m) others first.

(** The segments kept for comparison: those with text that is not blank
    and is not an artifact. *)
Definition valid_segment (seg : Segment) : bool :=
  negb (is_empty (PyStr.strip (text seg)))
  && negb (is_whisper_artifact (text seg)).

(** Inner loop: collect the later segments similar to [seg1]. *)
Definition collect_similar (similarity_threshold : Q) (seg1 : Segment)
    (st : list Segment * gset nat) (entry : nat * Segment)
  : list Segment * gset nat :=
  let '(similar_segments, processed_indices) := st in
  let '(j, seg2) := entry in
  if bool_decide (j ∈ processed_indices) then st
  else
    let similarity := calculate_text_similarity (text seg1) (text seg2) in
    if Qle_bool similarity_threshold similarity
    then (similar_segments ++ [seg2], {[j]} ∪ processed_indices)
    else st.

Definition merge_group (seg1 : Segment) (similar_segments : list Segment)
  : Segment :=
  match similar_segments with
  | _ :: _ :: _ =>
      {| start := min_of (start seg1) (map start (tl similar_segments));
         end_ := max_of (end_ seg1) (map end_ (tl similar_segments));
         text := merge_text_segments (map text similar_segments) |}
  | _ => seg1
  end.

(** Outer loop over [enumerate(valid_segments)]. *)
Definition merge_step (similarity_threshold : Q) (valid_segments : list Segment)
    (st : list Segment * gset nat) (entry : nat * Segment)
  : list Segment * gset nat :=
  let '(merged_segments, processed_indices) := st in
  let '(i, seg1) := entry in
  if bool_decide (i ∈ processed_indices) then st
  else
    let '(similar_segments, processed_indices) :=
      fold_left (collect_similar similarity_threshold seg1)
        (enumerate_from (i + 1) (drop (i + 1) valid_segments))
        ([seg1], {[i]} ∪ processed_indices) in
    (merged_segments ++ [merge_group seg1 similar_segments], processed_indices).

Definition merge_valid (similarity_threshold : Q) (segments : list Segment)
  : list Segment :=
  let valid_segments := List.filter valid_segment segments in
  fst (fold_left (merge_step similarity_threshold valid_segments)
         (enumerate valid_segments) ([], ∅)).

Definition merge_similar_segments (segments : list Segment)
    (similarity_threshold : Q) (target_timestamp : option Q) : list Segment :=
  if length segments <=? 1 then segments
  else
    match target_timestamp with
    | Some t =>
        let target_segments :=
          List.filter (fun seg => Qle_bool (Qabs (start seg - t)) (5 # 10))
            segments in
        match target_segments with
        | [] => segments
        | _ => merge_valid similarity_threshold target_segments
        end
    | None => merge_valid similarity_threshold segments
    end.

(** ** Timestamp lookup of [transcribe_and_extract] *)

(** [{kp: [] for kp in keypoints}] *)
Definition empty_times (keypoints : list str) : list (str * list Q) :=
  fold_left (fun d kp => dict_set kp [] d) keypoints [].

(** [keypoint_times[kp].append(t)] *)
Definition times_append (kp : str) (t : Q) (d : list (str * list Q))
  : list (str * list Q) :=
  match dict_get kp d with
  | Some ts => dict_set kp (ts ++ [t]) d
  | None => d
  end.

(** [kp.lower() in seg["text"].lower()] *)
Definition mentions (kp : str) (seg : Segment) : bool :=
  PyStr.contains (PyStr.lower kp) (PyStr.lower (text seg)).

(** The inner loop: every keypoint against one segment. *)
Definition scan_segment (keypoints : list str) (d : list (str * list Q))
    (seg : Segment) : list (str * list Q) :=
  fold_left
    (fun d kp => if mentions kp seg then times_append kp (start seg) d else d)
    keypoints d.

(** The outer loop over the segments, on [{kp: [] for kp in keypoints}]. *)
Definition keypoint_times (keypoints : list str) (all_segments : list Segment)
  : list (str * list Q) :=
  fold_left (scan_segment keypoints) all_segments (empty_times keypoints).

(** ** Phrase merger and sub-phrase eliminator *)

Definition find_common_sequence (words1 words2 : list str) : list str :=
  match words1, words2 with
  | [], _ | _, [] => []
  | _, _ =>
      let words1_lower := map PyStr.lower words1 in
      let words2_lower := map PyStr.lower words2 in
      snd
        (fold_left
           (fun st i =>
              fold_left
                (fun (st : nat * list str) j =>
                   let '(max_length, best_sequence) := st in
                   let length_ :=
                     common_run (drop i words1_lower) (drop j words2_lower) in
                   if max_length <? length_
                   then (length_, PyStr.slice i (i + length_) words1_lower)
                   else st)
                (seq 0 (length words2_lower)) st)
           (seq 0 (length words1_lower)) (0, []))
  end.

Definition merge_two_phrases (phrase1 phrase2 : str) (common_sequence : list str)
  : option str :=
  match common_sequence with
  | [] => None
  | _ =>
      let phrase1_lower := PyStr.lower phrase1 in
      let phrase2_lower := PyStr.lower phrase2 in
      let common_text :=
        py " " ++ PyStr.join (py " ") common_sequence ++ py " " in
      match PyStr.find common_text phrase1_lower,
            PyStr.find common_text phrase2_lower with
      | Some start1, Some start2 =>
          let end1 := start1 + length common_text - 1 in
          let end2 := start2 + length common_text - 1 in
          let before1 := PyStr.strip (take start1 phrase1) in
          let after1 := PyStr.strip (drop end1 phrase1) in
          let before2 := PyStr.strip (take start2 phrase2) in
          let after2 := PyStr.strip (drop end2 phrase2) in
          let common := PyStr.strip common_text in
          let fmt (a b : str) := PyStr.strip (a ++ py " " ++ common ++ py " " ++ b) in
          Some
            (if (0 <? length before1) && (0 <? length after2)
             then fmt before1 after2
             else if (0 <? length before2) && (0 <? length after1)
             then fmt before2 after1
             else if 0 <? length before1 then fmt before1 after1
             else if 0 <? length before2 then fmt before2 after2
             else common)
      | _, _ => None
      end
  end.

(** The state of the search for partners of one phrase:
    [(best_merge, best_merge_length, merged_with)]. *)
Definition try_merge (phrase : str) (i : nat) (used_indices : gset nat)
    (phrase_words : list str) (st : str * nat * list nat) (entry : nat * str)
  : str * nat * list nat :=
  let '(best_merge, best_merge_length, merged_with) := st in
  let '(j, other_phrase) := entry in
  if (i =? j) || bool_decide (j ∈ used_indices) then st
  else
    let other_words := PyStr.split (PyStr.strip (PyStr.lower other_phrase)) in
    let shorter := Nat.min (length phrase_words) (length other_words) in
    let min_overlap := if shorter <=? 4 then 2 else 3 in
    if (3 <=? length phrase_words) && (3 <=? length other_words) then
      let common_sequence := find_common_sequence phrase_words other_words in
      if min_overlap <=? length common_sequence then
        let overlap_ratio :=
          (Z.of_nat (length common_sequence) # Pos.of_nat shorter)%Q in
        if Qle_bool (4 # 10) overlap_ratio then
          match merge_two_phrases phrase other_phrase common_sequence with
          | Some merged =>
              if negb (is_empty merged)
                 && (best_merge_length <? word_count merged)
                 && (best_merge_length + 1 <? word_count merged)
              then (merged, word_count merged, merged_with ++ [j])
              else st
          | None => st
          end
        else st
      else st
    else st.

Definition merge_phrase_step (sorted_phrases : list str)
    (st : list str * gset nat) (entry : nat * str) : list str * gset nat :=
  let '(merged_phrases, used_indices) := st in
  let '(i, phrase) := entry in
  if bool_decide (i ∈ used_indices) then st
  else
    let phrase_words := PyStr.split (PyStr.strip (PyStr.lower phrase)) in
    let '(best_merge, _, merged_with) :=
      fold_left (try_merge phrase i used_indices phrase_words)
        (enumerate sorted_phrases) (phrase, length phrase_words, []) in
    (merged_phrases ++ [best_merge],
     list_to_set merged_with ∪ ({[i]} ∪ used_indices)).

Definition common_words : gset str :=
  list_to_set
    (map py
       [ "de"; "het"; "een"; "van"; "in"; "op"; "met"; "als"; "voor"; "aan";
         "er"; "door"; "om"; "tot"; "ook"; "maar"; "uit"; "bij"; "over";
         "nog"; "naar"; "dan"; "of"; "je"; "ik"; "ze"; "zij"; "hij"; "wij";
         "jij"; "u"; "hun"; "ons"; "mijn"; "jouw"; "zijn"; "haar"; "hun";
         "dit"; "dat"; "deze"; "die" ]%string).

(** The closing loop over the phrases whose index was never used. *)
Definition add_unused (used_indices : gset nat) (merged_phrases : list str)
    (entry : nat * str) : list str :=
  let '(i, phrase) := entry in
  if bool_decide (i ∈ used_indices) then merged_phrases
  else
    let phrase_words := PyStr.split (PyStr.strip (PyStr.lower phrase)) in
    if 3 <=? length phrase_words then merged_phrases ++ [phrase]
    else if 2 <=? length phrase_words then
      let meaningful_words :=
        List.filter
          (fun w => negb (bool_decide (w ∈ common_words)) && (3 <=? length w))
          phrase_words in
      if 1 <=? length meaningful_words then merged_phrases ++ [phrase]
      else merged_phrases
    else merged_phrases.

Definition merge_overlapping_phrases (phrases : list str) : list str :=
  if length phrases <=? 1 then phrases
  else
    let sorted_phrases := sorted_desc word_count phrases in
    let '(merged_phrases, used_indices) :=
      fold_left (merge_phrase_step sorted_phrases) (enumerate sorted_phrases)
        ([], ∅) in
    fold_left (add_unused used_indices) (enumerate sorted_phrases)
      merged_phrases.

(** The test of [remove_true_subphrases]: [phrase] has fewer words than
    [existing_phrase] and occurs in it between word boundaries. *)
Definition is_true_subphrase (phrase existing_phrase : str) : bool :=
  let phrase_lower := PyStr.strip (PyStr.lower phrase) in
  let existing_lower := PyStr.strip (PyStr.lower existing_phrase) in
  (length (PyStr.split phrase_lower) <? length (PyStr.split existing_lower))
  && PyStr.contains (py " " ++ phrase_lower ++ py " ")
       (py " " ++ existing_lower ++ py " ").

Definition keep_if_not_subphrase (filtered_phrases : list str) (phrase : str)
  : list str :=
  if existsb (is_true_subphrase phrase) filtered_phrases
  then filtered_phrases
  else filtered_phrases ++ [phrase].

Definition remove_true_subphrases (phrases : list str) : list str :=
  if length phrases <=? 1 then phrases
  else fold_left keep_if_not_subphrase (sorted_desc word_count phrases) [].

(** ** Stopword-ratio filter *)

Definition stopword_count (stopwords : gset str) (words : list str) : nat :=
  length (List.filter (fun word => bool_decide (word ∈ stopwords)) words).

Definition max_allowed (total_words : nat) : Q :=
  if 6 <=? total_words then (5 # Pos.of_nat total_words)%Q
  else if total_words =? 5 then (4 # 5)%Q
  else if total_words =? 4 then (3 # 4)%Q
  else if total_words =? 3 then (2 # 3)%Q
  else (1 # 2)%Q.

(** The body of the candidate loop: [true] when the phrase is appended. *)
Definition passes_stopword_filter (stopwords : gset str) (phrase : str) : bool :=
  if is_empty phrase || negb (PyStr.contains (py " ") phrase) then false
  else
    let words_in_phrase := PyStr.split phrase in
    match words_in_phrase with
    | [] => false
    | _ =>
        let count := stopword_count stopwords words_in_phrase in
        let total_words := length words_in_phrase in
        if (0 <? total_words)
           && Qle_bool (Z.of_nat count # Pos.of_nat total_words)
                (max_allowed total_words)
        then
          if count =? total_words then false
          else if (total_words =? 2) && (count =? 1) then
            let non_stopword :=
              hd []
                (List.filter (fun w => negb (bool_decide (w ∈ stopwords)))
                   words_in_phrase) in
            negb (length non_stopword <? 3)
          else true
        else false
    end.

(** [filtered_phrases] as it stands after the candidate loop. *)
Definition stopword_filtered (phrases : list (str * Q)) (stopwords : gset str)
  : list str :=
  List.filter (passes_stopword_filter stopwords) (map fst phrases).

(** The cap on two-word phrases: [min(n * 0.35, len(two))], cut with [int].
    The product is taken in [Q]; in doubles [n * 0.35] can fall just below
    a whole value of 7n/20 (as at n = 180), and [int] then gives one
    less. *)
Definition cap_two_word (n : nat) (two_word_phrases : list str) : list str :=
  let len_two := inject_Z (Z.of_nat (length two_word_phrases)) in
  let limit := (inject_Z (Z.of_nat n) * (35 # 100))%Q in
  let max_two_word := if Qlt_le_dec len_two limit then len_two else limit in
  if Qlt_le_dec max_two_word len_two
  then take (Z.to_nat (Qfloor max_two_word)) two_word_phrases
  else two_word_phrases.

(** The list handed to the merger: 4+ words, then 3 words, then the capped
    2-word phrases. *)
Definition prioritized (filtered_phrases : list str) : list str :=
  let long_phrases := List.filter (fun p => 4 <=? word_count p) filtered_phrases in
  let medium_phrases := List.filter (fun p => word_count p =? 3) filtered_phrases in
  let two_word_phrases := List.filter (fun p => word_count p =? 2) filtered_phrases in
  long_phrases ++ medium_phrases
  ++ cap_two_word (length filtered_phrases) two_word_phrases.

Definition post_process (filtered_phrases : list str) : list str :=
  if 20 <? length filtered_phrases
  then remove_true_subphrases
         (merge_overlapping_phrases (prioritized filtered_phrases))
  else filtered_phrases.

(** [filter_phrases_robust(phrases, stopwords)]; the optional argument
    [max_stopword_ratio] is never read by the body. *)
Definition filter_phrases_robust (phrases : list (str * Q))
    (stopwords : gset str) : list str :=
  if is_empty_list phrases || bool_decide (stopwords = ∅) then []
  else post_process (stopword_filtered phrases stopwords).

Definition filter_words_robust (words : list (str * Q)) (stopwords : gset str)
  : list str :=
  if is_empty_list words || bool_decide (stopwords = ∅) then []
  else
    List.filter
      (fun word =>
         negb (is_empty word) && negb (PyStr.contains (py " ") word)
         && negb (bool_decide (word ∈ stopwords)))
      (map fst words).

(** ** The run of [transcribe_and_extract] around the lookup

    The keypoints come out of the keyword extraction (an external model or
    the frequency fallback), which reads the transcript made from
    [merged_segments]; the lookup that follows reads [all_segments]. *)

Section Run.

Variable extract_keypoints : list Segment -> list str.

Definition transcribe_and_extract (all_segments : list Segment)
  : list (str * list Q) :=
  let merged_segments := merge_similar_segments all_segments (4 # 10) None in
  let keypoints := extract_keypoints merged_segments in
  keypoint_times keypoints all_segments.

End Run.

(** ** Statement helpers *)

(** The ceiling of the stopword table: at most [n - 1] stopwords up to five
    words, at most five from six words on. *)
Definition stopword_ceiling (n : nat) : nat := if 6 <=? n then 5 else n - 1.


(** [d[kp]], the empty list when [kp] is not a key. *)
Definition times_of (kp : str) (d : list (str * list Q)) : list Q :=
  default [] (dict_get kp d).

(** ** Proof vocabulary *)

(** The indicator that gives the prompt away; it has no blank. *)
Definition indicator_word : str := py "transcriptie".

(** The texts the merger works on. *)
Definition valid_text (t : str) : Prop :=
  PyStr.strip t <> [] /\ is_whisper_artifact t = false.

(** While partners are tried for [phrase], the best merge is [phrase]
    itself or a merged phrase that is at least two words longer than a
    phrase of three words. *)
Definition try_merge_inv (phrase : str) (phrase_words : list str)
    (st : str * nat * list nat) : Prop :=
  let '(best_merge, best_merge_length, _) := st in
  length phrase_words <= best_merge_length
  /\ (best_merge = phrase \/ word_count best_merge <> 2).

(** ** Sample data *)

Definition sample_stopwords : gset str :=
  list_to_set (map py ["de"; "het"; "een"; "van"; "in"; "op"; "ook"]%string).

(** Nineteen three-word candidates without stopwords and without a word
    in common. *)
Definition sample_headlines : list (str * Q) :=
  map (fun s => (py s, (5 # 10)%Q))
    [ "regering kondigt belastingverlaging";
      "minister bezoekt ziekenhuis";
      "treinen rijden vertraging";
      "school sluit deuren";
      "burgemeester opent brug";
      "politie zoekt getuigen";
      "boeren protesteren stikstof";
      "voetbal wedstrijd afgelast";
      "storm nadert kust";
      "prijzen stijgen supermarkt";
      "gemeente bouwt woningen";
      "rechter veroordeelt verdachte";
      "artsen waarschuwen griep";
      "studenten demonstreren collegegeld";
      "brandweer blust schuur";
      "museum toont schilderijen";
      "vliegveld schrapt vluchten";
      "kabinet bespreekt begroting";
      "onderzoek bevestigt klimaatverandering" ]%string.

(** Candidates for the runs with more than 20 phrases. *)
Definition fused_candidates : list (str * Q) :=
  sample_headlines
  ++ [ (py "de het een corona maatregelen nederland vandaag", (9 # 10)%Q);
       (py "ook corona maatregelen nederland van in op", (8 # 10)%Q) ].


Definition mixed_candidates : list (str * Q) :=
  sample_headlines
  ++ [ (py "corona maatregelen nederland vandaag", (9 # 10)%Q);
       (py "uitbraak amsterdam", (8 # 10)%Q) ].

(** Two candidates, one nested in the other, and a small stopword set. *)
Definition nested_candidates : list (str * Q) :=
  [ (py "nieuwe corona maatregelen", (8 # 10)%Q);
    (py "corona maatregelen", (6 # 10)%Q) ].

Definition article_stopwords : gset str :=
  list_to_set (map py ["de"; "het"; "een"]%string).

(** Keypoints with their timestamps. *)
Definition corona_keypoints : list (str * list Q) :=
  [ (py "corona", [1%Q]); (py "maatregelen", [2%Q]);
    (py "corona maatregelen", [3%Q]) ].

(** Segments. *)
Definition prompt_segment : Segment := mkSegment 12 20 WHISPER_PROMPT.

Definition news_segment : Segment :=
  mkSegment 30 34 (py "het nieuws van vandaag").

(** One long word, three times, in three letter cases: 152 characters. *)
Definition mixed_case_text : str :=
  py "Aansprakelijkheidswaardevaststellingsveranderingen AANSPRAKELIJKHEIDSWAARDEVASTSTELLINGSVERANDERINGEN aansprakelijkheidswaardevaststellingsveranderingen".

(** The candidates of scenario 3. *)
Definition scenario3_first : str := py "nieuwe maatregelen voor de economie".

Definition scenario3_second : str := py "maatregelen voor de economie vandaag".

(** A word as [split] produces it: not empty, no white space inside. *)
Definition clean_word (w : str) : Prop :=
  w <> [] /\ Forall (fun c => PyStr.is_space c = false) w.

(** All the timestamps a phrase dictionary holds, in entry order. *)
Definition dict_times (d : phrase_dict) : list Q :=
  concat (map (fun e => snd (snd e)) d).

(** The invariant of the deduplicator's loop over the entries read so far:
    keys are unique, every key is the normalized text of the phrase stored
    under it, every stored phrase was read, no timestamp is lost or made
    up, and there are no more entries than phrases read. *)
Definition dedup_inv (d : phrase_dict) (read : list (str * list Q)) : Prop :=
  List.NoDup (map fst d)
  /\ (forall k p ts, In (k, (p, ts)) d ->
        k = normalize_phrase p /\ In p (map fst read))
  /\ Permutation (dict_times d) (concat (map snd read))
  /\ length d <= length read.

(** ** Word-overlap helpers of [utils.py] *)

(** [calculate_similarity]: the Jaccard similarity of the two word sets. *)
Definition calculate_similarity (text1 text2 : str) : Q :=
  match text1, text2 with
  | [], _ | _, [] => 0%Q
  | _, _ =>
      let words1 := PyStr.word_set (PyStr.split (PyStr.lower text1)) in
      let words2 := PyStr.word_set (PyStr.split (PyStr.lower text2)) in
      if (size words1 =? 0) || (size words2 =? 0) then 0%Q
      else
        let intersection := size (words1 ∩ words2) in
        let union := size (words1 ∪ words2) in
        if 0 <? union then (Z.of_nat intersection # Pos.of_nat union)%Q
        else 0%Q
  end.

(** The inner loop of [count_phrase_occurrences] at one position: phrase
    word [j] against transcript word [i + j], failing past the end. *)
Fixpoint window_matches (phrase_words rest : list str) : bool :=
  match phrase_words, rest with
  | [], _ => true
  | _ :: _, [] => false
  | phrase_word :: phrase_words', word :: rest' =>
      PyStr.eqb word phrase_word && window_matches phrase_words' rest'
  end.

(** [count_phrase_occurrences]; [range(len(transcript_lower) -
    len(phrase_words) + 1)] is empty when the difference is negative,
    hence the subtraction last. *)
Definition count_phrase_occurrences (phrase : str)
    (transcript_words : list str) : nat :=
  if is_empty phrase || is_empty_list transcript_words then 0
  else
    let phrase_words := PyStr.split (PyStr.lower phrase) in
    if length phrase_words =? 0 then 0
    else
      let transcript_lower := map PyStr.lower transcript_words in
      length
        (List.filter
           (fun i => window_matches phrase_words (drop i transcript_lower))
           (seq 0 (length transcript_lower + 1 - length phrase_words))).

(** ** Timestamp estimates of [transcription.py] *)

(** [first_occurrence / text_length * audio_duration]; the division by an
    empty text's length raises, and the handler returns 0.0. *)
Definition position_timestamp (first_occurrence : nat) (text : str)
    (audio_duration : Q) : Q :=
  match length text with
  | O => 0%Q
  | S _ =>
      ((Z.of_nat first_occurrence # Pos.of_nat (length text))
       * audio_duration)%Q
  end.

Definition estimate_word_timestamp (word text : str) (audio_duration : Q) : Q :=
  let word_lower := PyStr.lower word in
  let text_lower := PyStr.lower text in
  match PyStr.find word_lower text_lower with
  | Some first_occurrence =>
      position_timestamp first_occurrence text audio_duration
  | None => 0%Q
  end.

Definition estimate_phrase_timestamp (phrase text : str) (audio_duration : Q)
  : Q :=
  let phrase_lower := PyStr.lower phrase in
  let text_lower := PyStr.lower text in
  let occurrences :=
    count_phrase_occurrences phrase (PyStr.split text_lower) in
  if 0 <? occurrences then
    match PyStr.find phrase_lower text_lower with
    | Some first_occurrence =>
        position_timestamp first_occurrence text audio_duration
    | None => 0%Q
    end
  else 0%Q.

(** [filter_music_content]: [music_patterns] maps a category to its
    patterns; a word goes when some pattern of some category occurs in it,
    lowered. *)
Definition is_music_word (music_patterns : list (str * list str)) (word : str)
  : bool :=
  let word_lower := PyStr.lower word in
  existsb
    (fun category =>
       existsb (fun pattern => PyStr.contains pattern word_lower)
         (snd category))
    music_patterns.

Definition filter_music_content (text : str)
    (music_patterns : list (str * list str)) : str :=
  PyStr.join (py " ")
    (List.filter (fun word => negb (is_music_word music_patterns word))
       (PyStr.split text)).

(** ** The earlier phrase helpers of [phrase_filtering.py] *)

(** [list(dict.fromkeys(words))]: first occurrences, in order. *)
Fixpoint fromkeys (seen words : list str) : list str :=
  match words with
  | [] => []
  | w :: rest =>
      if existsb (PyStr.eqb w) seen then fromkeys seen rest
      else w :: fromkeys (w :: seen) rest
  end.

Module Earlier.

Definition can_merge_phrases (phrase1 phrase2 : str) : bool :=
  let words1 := PyStr.word_set (PyStr.split (PyStr.lower phrase1)) in
  let words2 := PyStr.word_set (PyStr.split (PyStr.lower phrase2)) in
  let overlap := size (words1 ∩ words2) in
  let total_unique := size (words1 ∪ words2) in
  if 0 <? total_unique
  then Qle_bool (5 # 10) (Z.of_nat overlap # Pos.of_nat total_unique)
  else false.

Definition merge_two_phrases (phrase1 phrase2 : str) : option str :=
  let words1 := PyStr.split (PyStr.lower phrase1) in
  let words2 := PyStr.split (PyStr.lower phrase2) in
  let common_words :=
    List.filter (fun word => existsb (PyStr.eqb word) words2) words1 in
  if 2 <=? length common_words
  then Some (PyStr.join (py " ") (fromkeys [] (words1 ++ words2)))
  else None.

End Earlier.

(** [is_complete_thought] *)
Definition incomplete_patterns : list str :=
  map py
    [ "moet zorgen voor een"; "het ook een beetje"; "ik zeggen het glas";
      "er zijn bijna geen"; "zou ik zeggen het"; "maar ik heb het";
      "ik heb het ook"; "van ga ik wel"; "ik zeg nooit";
      "voor een"; "een beetje"; "zeggen het"; "bijna geen"; "zeggen het";
      "heb het"; "heb het ook"; "ga ik wel"; "zeg nooit";
      "voor een"; "een beetje"; "het glas"; "bijna geen"; "het ook";
      "heb het"; "heb het ook"; "ik wel"; "zeg nooit" ]%string.

Definition incomplete_start_words : gset str :=
  list_to_set
    (map py ["moet"; "het"; "ik"; "er"; "zou"; "maar"; "van"; "zeg"]%string).

Definition incomplete_end_words : gset str :=
  list_to_set
    (map py
       ["een"; "beetje"; "glas"; "geen"; "het"; "ook"; "wel"; "nooit"]%string).

Definition generic_phrases : gset str :=
  list_to_set
    (map py
       [ "ik zeg"; "ik heb"; "het is"; "dat is"; "er zijn"; "er is";
         "ik ben"; "ik ga"; "ik doe"; "ik wil"; "ik kan"; "ik moet" ]%string).

Definition is_complete_thought (phrase : str) : bool :=
  if is_empty phrase || (length (PyStr.strip phrase) <? 5) then false
  else
    let phrase_lower := PyStr.strip (PyStr.lower phrase) in
    if existsb (fun pattern => PyStr.contains pattern phrase_lower)
         incomplete_patterns then false
    else
      let words := PyStr.split phrase_lower in
      if (2 <=? length words)
         && bool_decide (hd [] words ∈ incomplete_start_words)
         && bool_decide (List.last words [] ∈ incomplete_end_words)
      then false
      else negb (bool_decide (phrase_lower ∈ generic_phrases)).

(** ** [process_keypoints] of [app.py] *)

Record Results := mkResults {
  total_keypoints : nat;
  word_count_ : nat;
  phrase_count : nat;
  result_times : list (str * list Q);
  transcript : str;
  words : list str;
  phrases : list str
}.

Definition has_blank (kp : str) : bool := PyStr.contains (py " ") kp.

Definition process_keypoints (keypoint_times : list (str * list Q))
    (transcript_text : str) : Results :=
  let words_with_times :=
    List.filter
      (fun e => negb (has_blank (fst e)) && negb (is_empty_list (snd e)))
      keypoint_times in
  let phrases_with_times :=
    List.filter
      (fun e => has_blank (fst e) && negb (is_empty_list (snd e)))
      keypoint_times in
  let deduplicated_phrases :=
    match phrases_with_times with
    | [] => []
    | _ => deduplicate_phrases phrases_with_times
    end in
  let keypoint_times :=
    fold_left (fun d e => dict_set (fst e) (snd e) d)
      (words_with_times ++ deduplicated_phrases) [] in
  {| total_keypoints := length words_with_times + length deduplicated_phrases;
     word_count_ := length words_with_times;
     phrase_count := length deduplicated_phrases;
     result_times := keypoint_times;
     transcript := transcript_text;
     words := map fst words_with_times;
     phrases := map fst deduplicated_phrases |}.

(** ** Vocabulary for the fate of a phrase in [post_process] *)

(** The merge test of the inner loop of [merge_overlapping_phrases], run on
    the pair alone: from the state the loop starts in for [phrase], the step
    on [other_phrase] records its index, that is, both phrases have 3 or
    more words, their common run is long enough, and [merge_two_phrases]
    gives a phrase with at least two words more than [phrase]. *)
Definition accepts (phrase other_phrase : str) : bool :=
  let phrase_words := PyStr.split (PyStr.strip (PyStr.lower phrase)) in
  negb (is_empty_list
          (snd (try_merge phrase 0 ∅ phrase_words
                  (phrase, length phrase_words, []) (1, other_phrase)))).



(** * Facts about the string operations *)

Module PyStrFacts.
Import PyStr.

Lemma eqb_eq (a b : str) : eqb a b = true <-> a = b.
Proof.
  revert b. induction a as [|x a IH]; intros [|y b]; simpl; split;
    try congruence; intros H.
  - apply andb_true_iff in H as [Hxy Hab].
    apply Ascii.eqb_eq in Hxy. apply IH in Hab. congruence.
  - injection H as -> ->. rewrite Ascii.eqb_refl. simpl. now apply IH.
Qed.

Lemma eqb_refl (a : str) : eqb a a = true.
Proof. now apply eqb_eq. Qed.

Lemma is_space_lower (c : ascii) : is_space (lower_ascii c) = is_space c.
Proof. destruct c as [[] [] [] [] [] [] [] []]; reflexivity. Qed.

Lemma lower_ascii_idem (c : ascii) : lower_ascii (lower_ascii c) = lower_ascii c.
Proof. destruct c as [[] [] [] [] [] [] [] []]; reflexivity. Qed.

Lemma lower_idem (s : str) : lower (lower s) = lower s.
Proof.
  unfold lower. rewrite map_map. apply map_ext. apply lower_ascii_idem.
Qed.

Lemma startswith_lower (p s : str) :
  startswith p s = true -> startswith (lower p) (lower s) = true.
Proof.
  revert s. induction p as [|x p IH]; intros [|y s]; simpl; try congruence.
  intros H. apply andb_true_iff in H as [Hxy Hps].
  apply Ascii.eqb_eq in Hxy. subst y. rewrite Ascii.eqb_refl. simpl. auto.
Qed.

Lemma contains_lower (w s : str) :
  contains w s = true -> contains (lower w) (lower s) = true.
Proof.
  induction s as [|c s IH]; simpl; intros H.
  - rewrite orb_false_r in *. now apply (startswith_lower w []).
  - apply orb_true_iff in H as [H|H].
    + apply (startswith_lower w (c :: s)) in H. simpl in H. rewrite H. reflexivity.
    + rewrite (IH H). apply orb_true_r.
Qed.

Lemma startswith_app (w a b : str) :
  startswith w a = true -> startswith w (a ++ b) = true.
Proof.
  revert a. induction w as [|x w IH]; intros [|y a]; simpl; try congruence.
  intros H. apply andb_true_iff in H as [-> Hw]. simpl. auto.
Qed.

Lemma contains_cons (w : str) (c : ascii) (s : str) :
  contains w s = true -> contains w (c :: s) = true.
Proof. intros H. simpl. rewrite H. apply orb_true_r. Qed.

Lemma contains_app_r (w a b : str) :
  contains w b = true -> contains w (a ++ b) = true.
Proof. induction a as [|c a IH]; simpl; intros H; auto using orb_true_r.
  rewrite (IH H). apply orb_true_r. Qed.

Lemma contains_app_l (w a b : str) :
  contains w a = true -> contains w (a ++ b) = true.
Proof.
  induction a as [|c a IH]; intros H.
  - simpl in H. rewrite orb_false_r in H. destruct w; [|discriminate H].
    destruct b; reflexivity.
  - cbn [contains] in H. apply orb_true_iff in H as [H|H].
    + apply (startswith_app _ _ b) in H. cbn [app] in H.
      cbn [app contains]. rewrite H. reflexivity.
    + cbn [app]. apply contains_cons. auto.
Qed.

(** Stripping commutes with lowering, and only removes characters at the
    two ends. *)
Lemma lstrip_lower (s : str) : lstrip (lower s) = lower (lstrip s).
Proof.
  induction s as [|c s IH]; simpl; [reflexivity|].
  rewrite is_space_lower. destruct (is_space c); auto.
Qed.

Lemma rstrip_lower (s : str) : rstrip (lower s) = lower (rstrip s).
Proof.
  induction s as [|c s IH]; simpl; [reflexivity|].
  fold (lower s). rewrite IH. destruct (rstrip s); simpl.
  - rewrite is_space_lower. destruct (is_space c); reflexivity.
  - reflexivity.
Qed.

Lemma strip_lower (s : str) : strip (lower s) = lower (strip s).
Proof. unfold strip. now rewrite lstrip_lower, rstrip_lower. Qed.

Lemma contains_lstrip (w s : str) :
  contains w (lstrip s) = true -> contains w s = true.
Proof.
  induction s as [|c s IH]; [auto|]. cbn [lstrip].
  destruct (is_space c); [|auto]. intros H. apply contains_cons. auto.
Qed.

Lemma rstrip_prefix (s : str) : exists t, s = rstrip s ++ t.
Proof.
  induction s as [|c s [t IH]]; [now exists []|]. cbn [rstrip].
  destruct (rstrip s) as [|r0 r] eqn:E.
  - destruct (is_space c); [now exists (c :: s)|].
    exists t. simpl in *. congruence.
  - exists t. simpl in *. congruence.
Qed.

Lemma contains_rstrip (w s : str) :
  contains w (rstrip s) = true -> contains w s = true.
Proof.
  intros H. destruct (rstrip_prefix s) as [t Ht]. rewrite Ht.
  now apply contains_app_l.
Qed.

Lemma contains_strip (w s : str) :
  contains w (strip s) = true -> contains w s = true.
Proof. intros H. now apply contains_lstrip, contains_rstrip. Qed.

(** A word without blanks cannot straddle a blank. *)
Lemma startswith_blank (w a b : str) :
  PyStr.blank_free w -> startswith w (a ++ space :: b) = true ->
  startswith w a = true.
Proof.
  intros Hw. revert a. induction Hw as [|x w Hx Hw IH]; intros a H; [reflexivity|].
  destruct a as [|y a]; simpl in *.
  - apply andb_true_iff in H as [H _]. apply Ascii.eqb_eq in H. contradiction.
  - apply andb_true_iff in H as [-> H]. simpl. auto.
Qed.

Lemma contains_blank (w a b : str) :
  PyStr.blank_free w -> w <> [] -> contains w (a ++ space :: b) = true ->
  contains w a = true \/ contains w b = true.
Proof.
  intros Hw Hne. induction a as [|c a IH]; cbn [app contains]; intros H.
  - apply orb_true_iff in H as [H|H]; [|now right].
    apply (startswith_blank w [] b Hw) in H. destruct w; [congruence|discriminate H].
  - apply orb_true_iff in H as [H|H].
    + left. apply (startswith_blank w (c :: a) b Hw) in H. rewrite H. reflexivity.
    + destruct (IH H) as [H'|H']; [left|now right]. rewrite H'. apply orb_true_r.
Qed.

Lemma contains_join (w : str) (parts : list str) :
  PyStr.blank_free w -> w <> [] -> contains w (join [space] parts) = true ->
  exists p, In p parts /\ contains w p = true.
Proof.
  intros Hw Hne. induction parts as [|p ps IH]; intros H.
  - simpl in H. destruct w; [congruence|discriminate H].
  - destruct ps as [|q ps].
    + exists p. split; [now left|exact H].
    + change (join [space] (p :: q :: ps))
        with (p ++ space :: join [space] (q :: ps)) in H.
      apply contains_blank in H as [H|H]; auto.
      * exists p. split; [now left|exact H].
      * destruct (IH H) as [p' [Hin Hp']]. exists p'. split; [now right|exact Hp'].
Qed.

(** Collapsing double blanks does not create a word that was not there. *)
Lemma startswith_replace_blanks (w s : str) :
  PyStr.blank_free w ->
  startswith w (replace_from [space; space] [space] 0 s) = true ->
  startswith w s = true.
Proof.
  intros Hw. revert s. induction Hw as [|x w Hx Hw IH]; intros s H; [reflexivity|].
  destruct s as [|c s]; [discriminate H|].
  cbn [replace_from] in H.
  destruct (startswith [space; space] (c :: s)) eqn:E.
  - simpl in H. apply andb_true_iff in H as [H _].
    apply Ascii.eqb_eq in H. contradiction.
  - simpl in H. apply andb_true_iff in H as [Hxc H]. simpl. rewrite Hxc. simpl. exact (IH s H).
Qed.

Lemma contains_replace_blanks_from (w : str) :
  PyStr.blank_free w -> w <> [] ->
  forall s skip,
    contains w (replace_from [space; space] [space] skip s) = true ->
    contains w s = true.
Proof.
  intros Hw Hne. induction s as [|c s IH]; intros skip H.
  - simpl in H. destruct w; [congruence|discriminate H].
  - cbn [replace_from] in H. destruct skip as [|k].
    + destruct (startswith [space; space] (c :: s)) eqn:E.
      * change ([space] ++ ?r) with (space :: r) in H. cbn [contains] in H.
        apply orb_true_iff in H as [H|H].
        -- destruct Hw as [|x w Hx Hw]; [congruence|].
           simpl in H. apply andb_true_iff in H as [H _].
           apply Ascii.eqb_eq in H. contradiction.
        -- apply contains_cons. eauto.
      * cbn [contains] in H. apply orb_true_iff in H as [H|H].
        -- assert (Hs : startswith w (c :: s) = true).
           { apply startswith_replace_blanks; [exact Hw|].
             cbn [replace_from]. rewrite E. exact H. }
           cbn [contains]. rewrite Hs. reflexivity.
        -- apply contains_cons. eauto.
    + apply contains_cons. eauto.
Qed.

Lemma contains_replace_blanks (w s : str) :
  PyStr.blank_free w -> w <> [] ->
  contains w (replace [space; space] [space] s) = true -> contains w s = true.
Proof. intros Hw Hne. apply contains_replace_blanks_from; assumption. Qed.

End PyStrFacts.

(** * Facts about [split] and the word count *)

Module SplitFacts.
Import PyStr PyStrFacts.

Lemma split_from_lower (s cur : str) :
  split_from (lower cur) (lower s) = map lower (split_from cur s).
Proof.
  revert cur. induction s as [|c s IH]; intros cur; simpl.
  - destruct cur; reflexivity.
  - rewrite is_space_lower. destruct (is_space c).
    + destruct cur; simpl; [apply (IH [])|]. f_equal. apply (IH []).
    + rewrite <- IH. unfold lower. now rewrite map_app.
Qed.

Lemma split_lower (s : str) : split (lower s) = map lower (split s).
Proof. apply (split_from_lower s []). Qed.

Lemma split_lstrip (s : str) : split (lstrip s) = split s.
Proof.
  unfold split. induction s as [|c s IH]; simpl; [reflexivity|].
  destruct (is_space c) eqn:E; [exact IH|]. simpl. now rewrite E.
Qed.

Lemma split_from_rstrip (s cur : str) :
  split_from cur (rstrip s) = split_from cur s.
Proof.
  revert cur. induction s as [|c s IH]; intros cur; [reflexivity|].
  cbn [rstrip]. destruct (rstrip s) as [|r0 r] eqn:E.
  - destruct (is_space c) eqn:Ec; cbn [split_from]; rewrite Ec.
    + rewrite <- (IH []). destruct cur; reflexivity.
    + rewrite <- IH. reflexivity.
  - cbn [split_from]. destruct (is_space c).
    + rewrite <- (IH []). reflexivity.
    + rewrite <- IH. reflexivity.
Qed.

Lemma split_strip (s : str) : split (strip s) = split s.
Proof.
  unfold strip, split. rewrite split_from_rstrip. apply split_lstrip.
Qed.

Lemma word_count_normal (s : str) :
  length (split (strip (lower s))) = word_count s.
Proof.
  unfold word_count. rewrite split_strip, split_lower. apply length_map.
Qed.

End SplitFacts.

(** * Facts about the stable descending sort *)

Section SortedDesc.

Context {A : Type} (key : A -> nat).

Lemma insert_desc_perm (x : A) (l : list A) :
  Permutation (insert_desc key x l) (x :: l).
Proof.
  induction l as [|y l IH]; simpl; [reflexivity|].
  destruct (key x <? key y); [|reflexivity].
  rewrite IH. apply perm_swap.
Qed.

Lemma sorted_desc_perm (l : list A) : Permutation (sorted_desc key l) l.
Proof.
  induction l as [|x l IH]; simpl; [reflexivity|].
  rewrite insert_desc_perm. now constructor.
Qed.

Lemma sorted_desc_In (x : A) (l : list A) : In x (sorted_desc key l) <-> In x l.
Proof.
  split; apply Permutation_in;
    [apply sorted_desc_perm | symmetry; apply sorted_desc_perm].
Qed.

Lemma sorted_desc_length (l : list A) : length (sorted_desc key l) = length l.
Proof. apply Permutation_length, sorted_desc_perm. Qed.

Lemma insert_desc_sorted (x : A) (l : list A) :
  StronglySorted (desc key) l -> StronglySorted (desc key) (insert_desc key x l).
Proof.
  induction 1 as [|y l Hl IH Hy]; simpl.
  - constructor; constructor.
  - destruct (key x <? key y) eqn:E.
    + apply Nat.ltb_lt in E. constructor; [exact IH|].
      apply List.Forall_forall. intros z Hz.
      apply (Permutation_in _ (insert_desc_perm x l)) in Hz.
      destruct Hz as [<-|Hz]; [unfold desc; lia|].
      rewrite List.Forall_forall in Hy. auto.
    + apply Nat.ltb_ge in E. constructor; [now constructor|].
      constructor; [exact E|].
      apply List.Forall_forall. intros z Hz. rewrite List.Forall_forall in Hy.
      specialize (Hy z Hz). unfold desc in *. lia.
Qed.

Lemma sorted_desc_sorted (l : list A) : StronglySorted (desc key) (sorted_desc key l).
Proof.
  induction l as [|x l IH]; simpl; [constructor|].
  now apply insert_desc_sorted.
Qed.

End SortedDesc.

(** * The sub-phrase eliminator *)

Lemma is_true_subphrase_fewer_words (p q : str) :
  is_true_subphrase p q = true -> word_count p < word_count q.
Proof.
  unfold is_true_subphrase. intros H. apply andb_true_iff in H as [H _].
  apply Nat.ltb_lt in H. now rewrite !SplitFacts.word_count_normal in H.
Qed.

Lemma keep_if_not_subphrase_In (acc : list str) (x p : str) :
  In p (keep_if_not_subphrase acc x) -> In p acc \/ p = x.
Proof.
  unfold keep_if_not_subphrase.
  destruct (existsb (is_true_subphrase x) acc); [now left|].
  intros H. apply in_app_or in H as [H|[H|[]]]; auto.
Qed.

(** The loop keeps the invariant that no kept phrase is a true sub-phrase
    of another kept phrase, as long as the phrases arrive by descending
    word count. *)
Lemma keep_loop_no_subphrase (l : list str) :
  StronglySorted (desc word_count) l ->
  forall acc,
    (forall e x, In e acc -> In x l -> word_count x <= word_count e) ->
    (forall p q, In p acc -> In q acc -> is_true_subphrase p q = false) ->
    forall p q,
      In p (fold_left keep_if_not_subphrase l acc) ->
      In q (fold_left keep_if_not_subphrase l acc) ->
      is_true_subphrase p q = false.
Proof.
  induction 1 as [|x l Hl IH Hx]; intros acc Hkey Hacc; [exact Hacc|].
  cbn [fold_left]. rewrite List.Forall_forall in Hx. apply IH.
  - intros e y He Hy. apply keep_if_not_subphrase_In in He as [He| ->].
    + apply (Hkey e y He). now right.
    + apply (Hx y Hy).
  - intros p q Hp Hq.
    destruct (is_true_subphrase p q) eqn:E; [exfalso|reflexivity].
    pose proof (is_true_subphrase_fewer_words _ _ E) as Hlt.
    unfold keep_if_not_subphrase in Hp, Hq.
    destruct (existsb (is_true_subphrase x) acc) eqn:Ex.
    + rewrite (Hacc p q Hp Hq) in E. discriminate E.
    + apply in_app_or in Hp as [Hp|[<-|[]]];
        apply in_app_or in Hq as [Hq|[<-|[]]].
      * rewrite (Hacc p q Hp Hq) in E. discriminate E.
      * specialize (Hkey p x Hp (or_introl eq_refl)). lia.
      * assert (Hex : existsb (is_true_subphrase x) acc = true)
          by (apply existsb_exists; eauto).
        congruence.
      * lia.
Qed.

Lemma remove_true_subphrases_spec (phrases : list str) (p q : str) :
  In p (remove_true_subphrases phrases) ->
  In q (remove_true_subphrases phrases) ->
  is_true_subphrase p q = false.
Proof.
  unfold remove_true_subphrases.
  destruct (length phrases <=? 1) eqn:E.
  - apply Nat.leb_le in E. intros Hp Hq.
    destruct (is_true_subphrase p q) eqn:Es; [exfalso|reflexivity].
    apply is_true_subphrase_fewer_words in Es.
    destruct phrases as [|a [|b l]]; simpl in *; try lia; try tauto.
    destruct Hp as [<-|[]], Hq as [<-|[]]. lia.
  - apply keep_loop_no_subphrase.
    + apply sorted_desc_sorted.
    + intros e x [].
    + intros p' q' [].
Qed.




(** * The phrase merger *)

Lemma enumerate_from_snd {A} (l : list A) (k : nat) :
  map snd (enumerate_from k l) = l.
Proof.
  revert k. induction l as [|x l IH]; intros k; simpl; [reflexivity|].
  now rewrite IH.
Qed.

Lemma enumerate_from_In {A} (l : list A) (k i : nat) (x : A) :
  In (i, x) (enumerate_from k l) -> In x l.
Proof.
  revert k. induction l as [|y l IH]; intros k; simpl; [tauto|].
  intros [H|H]; [left; congruence|right; eauto].
Qed.

Lemma try_merge_keeps_inv (phrase : str) (i : nat) (used : gset nat)
    (phrase_words : list str) (st : str * nat * list nat) (entry : nat * str) :
  try_merge_inv phrase phrase_words st ->
  try_merge_inv phrase phrase_words
    (try_merge phrase i used phrase_words st entry).
Proof.
  destruct st as [[best len] merged_with], entry as [j other].
  intros [Hlen Hbest]. unfold try_merge.
  repeat match goal with
         | |- context [if ?b then _ else _] => destruct b eqn:?
         | |- context [match ?o with Some _ => _ | None => _ end] =>
             destruct o eqn:?
         end;
    try (split; assumption).
  all: repeat match goal with
         | H : _ && _ = true |- _ => apply andb_true_iff in H as [? ?]
         | H : (_ <? _) = true |- _ => apply Nat.ltb_lt in H
         | H : (_ <=? _) = true |- _ => apply Nat.leb_le in H
         end.
  all: simpl; split; [lia|right; lia].
Qed.

Lemma try_merge_fold_inv (phrase : str) (i : nat) (used : gset nat)
    (phrase_words : list str) (l : list (nat * str))
    (st : str * nat * list nat) :
  try_merge_inv phrase phrase_words st ->
  try_merge_inv phrase phrase_words
    (fold_left (try_merge phrase i used phrase_words) l st).
Proof.
  revert st. induction l as [|e l IH]; intros st H; [exact H|].
  cbn [fold_left]. apply IH, try_merge_keeps_inv, H.
Qed.

Lemma merge_phrase_step_out (sorted_phrases : list str)
    (st : list str * gset nat) (entry : nat * str) :
  fst (merge_phrase_step sorted_phrases st entry) = fst st
  \/ exists b,
       fst (merge_phrase_step sorted_phrases st entry) = fst st ++ [b]
       /\ (word_count b = 2 -> word_count (snd entry) = 2).
Proof.
  destruct st as [merged used], entry as [i phrase]. unfold merge_phrase_step.
  destruct (bool_decide (i ∈ used)); [now left|]. right.
  set (pw := PyStr.split (PyStr.strip (PyStr.lower phrase))).
  pose proof (try_merge_fold_inv phrase i used pw (enumerate sorted_phrases)
                (phrase, length pw, [])) as H.
  destruct (fold_left _ _ _) as [[best len] merged_with].
  exists best. split; [reflexivity|].
  destruct H as [_ [->|H]]; simpl; [split; [lia|now left]|auto|tauto].
Qed.

(** Every index the first loop has passed is marked as used. *)
Lemma merge_phrase_step_used (sorted_phrases : list str)
    (st : list str * gset nat) (entry : nat * str) :
  snd st ⊆ snd (merge_phrase_step sorted_phrases st entry)
  /\ fst entry ∈ snd (merge_phrase_step sorted_phrases st entry).
Proof.
  destruct st as [merged used], entry as [i phrase]. unfold merge_phrase_step.
  destruct (bool_decide (i ∈ used)) eqn:E.
  - apply bool_decide_eq_true in E. simpl. split; [set_solver|exact E].
  - destruct (fold_left _ _ _) as [[best len] merged_with]. simpl.
    split; set_solver.
Qed.

Lemma merge_phrase_loop_used (sorted_phrases : list str)
    (l : list (nat * str)) (st : list str * gset nat) :
  snd st ⊆ snd (fold_left (merge_phrase_step sorted_phrases) l st)
  /\ forall e, In e l ->
       fst e ∈ snd (fold_left (merge_phrase_step sorted_phrases) l st).
Proof.
  revert st. induction l as [|x l IH]; intros st; cbn [fold_left].
  - split; [set_solver|intros e []].
  - destruct (IH (merge_phrase_step sorted_phrases st x)) as [Hsub Hin].
    destruct (merge_phrase_step_used sorted_phrases st x) as [Hs Hx].
    split; [intros z Hz; apply Hsub, Hs, Hz|].
    intros e [<-|He]; [apply Hsub, Hx|auto].
Qed.

Lemma add_unused_all_used (used : gset nat) (l : list (nat * str))
    (acc : list str) :
  (forall e, In e l -> fst e ∈ used) ->
  fold_left (add_unused used) l acc = acc.
Proof.
  revert acc. induction l as [|[i p] l IH]; intros acc H; [reflexivity|].
  cbn [fold_left]. unfold add_unused at 2.
  rewrite bool_decide_eq_true_2 by (apply (H (i, p)); now left).
  apply IH. intros e He. apply H. now right.
Qed.


(** * The artifact filter inside the segment merger *)

Lemma indicator_word_blank_free : PyStr.blank_free indicator_word.
Proof.
  unfold PyStr.blank_free, indicator_word. vm_compute py.
  repeat constructor; intros H; discriminate H.
Qed.

Lemma indicator_word_listed : In indicator_word whisper_prompt_indicators.
Proof.
  unfold whisper_prompt_indicators, indicator_word. apply in_map.
  do 4 right. left. reflexivity.
Qed.

Lemma prompt_is_artifact : is_whisper_artifact WHISPER_PROMPT = true.
Proof. vm_compute. reflexivity. Qed.

Lemma prompt_has_indicator :
  PyStr.contains indicator_word WHISPER_PROMPT = true.
Proof. vm_compute. reflexivity. Qed.

Lemma prompt_not_empty : WHISPER_PROMPT <> [].
Proof. vm_compute. intros H. discriminate H. Qed.

Lemma artifact_when_indicator (t : str) :
  t <> [] ->
  PyStr.contains indicator_word (PyStr.strip (PyStr.lower t)) = true ->
  is_whisper_artifact t = true.
Proof.
  intros Hne H. destruct t as [|c t]; [congruence|].
  unfold is_whisper_artifact.
  assert (Hex : existsb
                  (fun indicator =>
                     PyStr.contains indicator
                       (PyStr.strip (PyStr.lower (c :: t))))
                  whisper_prompt_indicators = true).
  { apply existsb_exists. exists indicator_word.
    split; [apply indicator_word_listed|exact H]. }
  cbv zeta. rewrite Hex. reflexivity.
Qed.

Lemma valid_segment_text (seg : Segment) :
  valid_segment seg = true -> valid_text (text seg).
Proof.
  unfold valid_segment, valid_text. intros H.
  apply andb_true_iff in H as [Hne Hart].
  apply negb_true_iff in Hne, Hart. split; [|exact Hart].
  intros E. rewrite E in Hne. discriminate Hne.
Qed.

Lemma valid_text_no_indicator (t : str) :
  valid_text t ->
  PyStr.contains indicator_word (PyStr.lower (PyStr.strip t)) = false.
Proof.
  intros [Hne Hart].
  destruct (PyStr.contains indicator_word (PyStr.lower (PyStr.strip t)))
    eqn:E; [exfalso|reflexivity].
  rewrite <- PyStrFacts.strip_lower in E.
  rewrite artifact_when_indicator in Hart; [discriminate Hart| |exact E].
  intros ->. apply Hne. reflexivity.
Qed.

Lemma no_indicator_not_prompt (u : str) :
  PyStr.contains indicator_word (PyStr.lower u) = false ->
  u <> WHISPER_PROMPT.
Proof.
  intros H ->.
  assert (E : PyStr.contains indicator_word (PyStr.lower WHISPER_PROMPT) = true)
    by (vm_compute; reflexivity).
  congruence.
Qed.

Lemma longest_In (first : str) (others : list str) :
  In (longest first others) (first :: others).
Proof.
  unfold longest. revert first.
  induction others as [|t others IH]; intros first; [now left|].
  cbn [fold_left].
  destruct (IH (if length first <? length t then t else first)) as [H|H].
  - rewrite <- H. destruct (length first <? length t); simpl; auto.
  - right. right. exact H.
Qed.

(** Joining parts none of which shows the indicator gives a text that is
    not the prompt. *)
Lemma joined_parts_not_prompt (parts : list str) :
  (forall p, In p parts ->
     PyStr.contains indicator_word (PyStr.lower p) = false) ->
  PyStr.strip (PyStr.replace (py "  ") (py " ") (PyStr.join (py " ") parts))
  <> WHISPER_PROMPT.
Proof.
  intros Hparts E.
  pose proof prompt_has_indicator as H. rewrite <- E in H.
  apply PyStrFacts.contains_strip in H.
  apply (PyStrFacts.contains_replace_blanks indicator_word) in H;
    [|apply indicator_word_blank_free|discriminate].
  apply (PyStrFacts.contains_join indicator_word) in H;
    [|apply indicator_word_blank_free|discriminate].
  destruct H as [p [Hin Hp]].
  apply PyStrFacts.contains_lower in Hp.
  change (PyStr.lower indicator_word) with indicator_word in Hp.
  rewrite (Hparts p Hin) in Hp. discriminate Hp.
Qed.

Lemma merge_text_segments_not_prompt (texts : list str) :
  (forall t, In t texts -> valid_text t) ->
  merge_text_segments texts <> WHISPER_PROMPT.
Proof.
  intros Hvalid. unfold merge_text_segments.
  destruct texts as [|t0 [|t1 rest]].
  - intros E. symmetry in E. exact (prompt_not_empty E).
  - intros ->. destruct (Hvalid _ (or_introl eq_refl)) as [_ H].
    rewrite prompt_is_artifact in H. discriminate H.
  - set (texts := t0 :: t1 :: rest) in *.
    set (unique_texts :=
           List.filter (fun t => negb (is_empty t)) (map PyStr.strip texts)).
    assert (Hu : forall u, In u unique_texts ->
                   PyStr.contains indicator_word (PyStr.lower u) = false).
    { intros u Hin. apply filter_In in Hin as [Hin _].
      apply in_map_iff in Hin as [t [<- Ht]].
      apply valid_text_no_indicator, Hvalid, Ht. }
    destruct unique_texts as [|u0 [|u1 others]].
    + intros E. symmetry in E. exact (prompt_not_empty E).
    + apply no_indicator_not_prompt, Hu. now left.
    + set (unique_texts := u0 :: u1 :: others) in *.
      set (base_text := longest u0 (u1 :: others)).
      assert (Hbase : In base_text unique_texts) by apply longest_In.
      destruct (List.filter _ unique_texts) as [|p0 ps] eqn:Ef.
      * apply no_indicator_not_prompt, Hu, Hbase.
      * apply joined_parts_not_prompt. intros p [<-|Hp]; [now apply Hu|].
        apply Hu. rewrite <- Ef in Hp. now apply filter_In in Hp as [Hp _].
Qed.

(** The merger's loops only ever pick segments out of [valid_segments]. *)
Lemma In_drop {A} (n : nat) (l : list A) (x : A) : In x (drop n l) -> In x l.
Proof.
  intros H. rewrite <- (firstn_skipn n l). apply in_or_app. now right.
Qed.

Lemma collect_similar_loop (thr : Q) (seg1 : Segment) (valid : list Segment)
    (l : list (nat * Segment)) :
  (forall e, In e l -> In (snd e) valid) ->
  forall st,
    (forall g, In g (fst st) -> In g valid) ->
    forall g, In g (fst (fold_left (collect_similar thr seg1) l st)) ->
              In g valid.
Proof.
  induction l as [|[j seg2] l IH]; intros Hl st Hst; [exact Hst|].
  cbn [fold_left]. apply IH; [intros e He; apply Hl; now right|].
  destruct st as [similar processed]. unfold collect_similar.
  destruct (bool_decide (j ∈ processed)); [exact Hst|].
  destruct (Qle_bool thr _); [|exact Hst].
  simpl. intros g Hg. apply in_app_or in Hg as [Hg|[<-|[]]].
  - apply Hst, Hg.
  - apply (Hl (j, seg2)). now left.
Qed.

Lemma merge_group_not_prompt (seg1 : Segment) (similar : list Segment) :
  valid_text (text seg1) ->
  (forall g, In g similar -> valid_text (text g)) ->
  text (merge_group seg1 similar) <> WHISPER_PROMPT.
Proof.
  intros H1 Hsim.
  assert (Hseg : text seg1 <> WHISPER_PROMPT).
  { intros E. destruct H1 as [_ H1]. rewrite E, prompt_is_artifact in H1.
    discriminate H1. }
  unfold merge_group. destruct similar as [|a [|b l]]; try exact Hseg.
  cbn [text]. apply merge_text_segments_not_prompt.
  intros t Ht. apply in_map_iff in Ht as [g [<- Hg]]. auto.
Qed.

Lemma merge_step_not_prompt (thr : Q) (valid : list Segment)
    (st : list Segment * gset nat) (entry : nat * Segment) :
  (forall v, In v valid -> valid_text (text v)) ->
  In (snd entry) valid ->
  (forall o, In o (fst st) -> text o <> WHISPER_PROMPT) ->
  forall o, In o (fst (merge_step thr valid st entry)) ->
            text o <> WHISPER_PROMPT.
Proof.
  intros Hvalid Hentry Hst. destruct st as [merged processed].
  destruct entry as [i seg1]. unfold merge_step.
  destruct (bool_decide (i ∈ processed)); [exact Hst|].
  pose proof (collect_similar_loop thr seg1 valid
                (enumerate_from (i + 1) (drop (i + 1) valid))) as Hloop.
  specialize (Hloop ltac:(intros [j s] He; simpl;
                          apply enumerate_from_In in He;
                          now apply In_drop in He)
                ([seg1], {[i]} ∪ processed)
                ltac:(simpl; intros g [<-|[]]; exact Hentry)).
  destruct (fold_left _ _ _) as [similar processed'].
  simpl in *. intros o Ho. apply in_app_or in Ho as [Ho|[<-|[]]].
  - apply Hst, Ho.
  - apply merge_group_not_prompt; [apply Hvalid, Hentry|].
    intros g Hg. apply Hvalid, Hloop, Hg.
Qed.

Lemma merge_valid_not_prompt (thr : Q) (segments : list Segment) (o : Segment) :
  In o (merge_valid thr segments) -> text o <> WHISPER_PROMPT.
Proof.
  unfold merge_valid.
  set (valid := List.filter valid_segment segments).
  assert (Hvalid : forall v, In v valid -> valid_text (text v)).
  { intros v Hv. apply filter_In in Hv as [_ Hv].
    now apply valid_segment_text. }
  assert (Hgen : forall l st,
             (forall e, In e l -> In (snd e) valid) ->
             (forall o, In o (fst st) -> text o <> WHISPER_PROMPT) ->
             forall o, In o (fst (fold_left (merge_step thr valid) l st)) ->
                       text o <> WHISPER_PROMPT).
  { induction l as [|e l IH]; intros st Hl Hst; [exact Hst|].
    cbn [fold_left]. apply IH; [intros e' He'; apply Hl; now right|].
    apply merge_step_not_prompt; auto. apply Hl. now left. }
  revert o. apply Hgen.
  - intros [i s] He. simpl. unfold enumerate in He.
    now apply enumerate_from_In in He.
  - intros o' [].
Qed.

(** * The timestamp lookup *)

Lemma dict_get_set_eq {V} (k : str) (v : V) (d : list (str * V)) :
  dict_get k (dict_set k v d) = Some v.
Proof.
  induction d as [|[k' v'] d IH]; simpl.
  - now rewrite PyStrFacts.eqb_refl.
  - destruct (PyStr.eqb k k') eqn:E; simpl.
    + now rewrite PyStrFacts.eqb_refl.
    + now rewrite E.
Qed.

Lemma dict_get_set_ne {V} (k k0 : str) (v : V) (d : list (str * V)) :
  k <> k0 -> dict_get k (dict_set k0 v d) = dict_get k d.
Proof.
  intros Hne.
  assert (Hk : PyStr.eqb k k0 = false).
  { destruct (PyStr.eqb k k0) eqn:E; [|reflexivity].
    apply PyStrFacts.eqb_eq in E. contradiction. }
  induction d as [|[k' v'] d IH]; simpl.
  - now rewrite Hk.
  - destruct (PyStr.eqb k0 k') eqn:E; simpl.
    + apply PyStrFacts.eqb_eq in E. subst k'. now rewrite Hk.
    + now rewrite IH.
Qed.

Lemma str_In_dec (k : str) (l : list str) : {In k l} + {~ In k l}.
Proof. apply in_dec. intros x y. exact (decide (x = y)). Qed.

Lemma empty_times_get (keypoints : list str) (k : str) :
  forall d : list (str * list Q),
    (In k keypoints ->
     dict_get k (fold_left (fun d kp => dict_set kp [] d) keypoints d)
     = Some [])
    /\ (~ In k keypoints ->
        dict_get k (fold_left (fun d kp => dict_set kp [] d) keypoints d)
        = dict_get k d).
Proof.
  induction keypoints as [|kp kps IH]; intros d; cbn [fold_left].
  - split; [intros []|reflexivity].
  - destruct (IH (dict_set kp [] d)) as [Hin Hout]. split.
    + intros Hk. destruct (str_In_dec k kps) as [Hi|Hni]; [auto|].
      destruct Hk as [->|Hk]; [|contradiction].
      rewrite (Hout Hni). apply dict_get_set_eq.
    + intros Hk. rewrite Hout by (intros ?; apply Hk; now right).
      apply dict_get_set_ne. intros ->. apply Hk. now left.
Qed.

(** What one [append] does to the entry of [k]: the key set stays, and the
    time is added when [k] is the keypoint and has an entry. *)
Lemma times_append_get (kp k : str) (t : Q) (d : list (str * list Q)) :
  dict_get k (times_append kp t d)
  = if bool_decide (k = kp)
    then option_map (fun ts => ts ++ [t]) (dict_get k d)
    else dict_get k d.
Proof.
  unfold times_append. destruct (decide (k = kp)) as [->|Hne].
  - rewrite bool_decide_eq_true_2 by reflexivity.
    destruct (dict_get kp d) as [ts|] eqn:E; simpl.
    + apply dict_get_set_eq.
    + exact E.
  - rewrite bool_decide_eq_false_2 by exact Hne.
    destruct (dict_get kp d); [now apply dict_get_set_ne|reflexivity].
Qed.

Lemma scan_segment_get (seg : Segment) (k : str) (keypoints : list str) :
  forall d,
    (dict_get k (scan_segment keypoints d seg) = None <-> dict_get k d = None)
    /\ forall t,
         In t (times_of k (scan_segment keypoints d seg))
         <-> In t (times_of k d)
             \/ (dict_get k d <> None /\ In k keypoints
                 /\ mentions k seg = true /\ t = start seg).
Proof.
  unfold scan_segment.
  induction keypoints as [|kp kps IH]; intros d; cbn [fold_left].
  - split; [tauto|]. intros t. simpl. tauto.
  - set (d1 := if mentions kp seg then times_append kp (start seg) d else d).
    destruct (IH d1) as [Hkeys Htimes].
    assert (Hd1 : (dict_get k d1 = None <-> dict_get k d = None)
                  /\ forall t,
                       In t (times_of k d1)
                       <-> In t (times_of k d)
                           \/ (dict_get k d <> None /\ k = kp
                               /\ mentions k seg = true /\ t = start seg)).
    { unfold d1, times_of. destruct (mentions kp seg) eqn:Em.
      - rewrite times_append_get. destruct (decide (k = kp)) as [->|Hne].
        + rewrite bool_decide_eq_true_2 by reflexivity.
          destruct (dict_get kp d) as [ts|]; simpl.
          * split; [split; discriminate|]. intros t. rewrite in_app_iff.
            simpl. intuition (try discriminate; auto).
          * intuition.
        + rewrite bool_decide_eq_false_2 by exact Hne. intuition.
      - intuition (subst; congruence). }
    destruct Hd1 as [Hkeys1 Htimes1].
    split; [tauto|]. intros t. rewrite Htimes, Htimes1. simpl.
    rewrite Hkeys1. intuition (subst; auto).
Qed.

Lemma scan_all_get (keypoints : list str) (k : str) (segs : list Segment) :
  forall d,
    (dict_get k (fold_left (scan_segment keypoints) segs d) = None
     <-> dict_get k d = None)
    /\ forall t,
         In t (times_of k (fold_left (scan_segment keypoints) segs d))
         <-> In t (times_of k d)
             \/ (dict_get k d <> None /\ In k keypoints
                 /\ exists seg, In seg segs /\ mentions k seg = true
                                /\ t = start seg).
Proof.
  induction segs as [|seg segs IH]; intros d; cbn [fold_left].
  - split; [tauto|]. intros t. split; [auto|].
    intros [H|(_ & _ & seg & [] & _)]. exact H.
  - destruct (IH (scan_segment keypoints d seg)) as [Hkeys Htimes].
    destruct (scan_segment_get seg k keypoints d) as [Hkeys1 Htimes1].
    split; [tauto|]. intros t. rewrite Htimes, Htimes1, Hkeys1. split.
    + intros [[H|(Hd & Hk & Hm & Ht)]|(Hd & Hk & s & Hs & Hm & Ht)].
      * left. exact H.
      * right. split; [exact Hd|]. split; [exact Hk|].
        exists seg. split; [now left|]. split; assumption.
      * right. split; [exact Hd|]. split; [exact Hk|].
        exists s. split; [now right|]. split; assumption.
    + intros [H|(Hd & Hk & s & [<-|Hs] & Hm & Ht)].
      * left. left. exact H.
      * left. right. repeat (split; [assumption|]). assumption.
      * right. split; [exact Hd|]. split; [exact Hk|].
        exists s. repeat (split; [assumption|]). assumption.
Qed.

(** The lookup records, for a keypoint, the start of every segment of the
    list it is given whose lowered text contains the lowered keypoint. *)
Lemma keypoint_times_spec (keypoints : list str) (segs : list Segment)
    (k : str) (t : Q) :
  In t (times_of k (keypoint_times keypoints segs))
  <-> In k keypoints
      /\ exists seg, In seg segs /\ mentions k seg = true /\ t = start seg.
Proof.
  unfold keypoint_times.
  destruct (scan_all_get keypoints k segs (empty_times keypoints)) as [_ H].
  rewrite H. unfold times_of, empty_times.
  destruct (empty_times_get keypoints k []) as [Hin Hout].
  destruct (str_In_dec k keypoints) as [Hk|Hk].
  - rewrite (Hin Hk). simpl. split.
    + intros [[]|(_ & ? & ?)]. auto.
    + intros [? ?]. right. split; [discriminate|auto].
  - rewrite (Hout Hk). simpl. tauto.
Qed.

(** * The stopword-ratio filter *)

Lemma stopword_count_le (stopwords : gset str) (words : list str) :
  stopword_count stopwords words <= length words.
Proof. unfold stopword_count. apply List.filter_length_le. Qed.

Lemma max_allowed_ceiling (count total_words : nat) :
  1 <= total_words ->
  Qle_bool (Z.of_nat count # Pos.of_nat total_words) (max_allowed total_words)
  = true ->
  count <= stopword_ceiling total_words.
Proof.
  intros Hpos H. apply Qle_bool_iff in H. unfold Qle in H.
  unfold stopword_ceiling, max_allowed in *.
  destruct total_words as [|[|[|[|[|[|n]]]]]]; try lia;
    try (simpl in H; simpl; lia).
  change (6 <=? S (S (S (S (S (S n)))))) with true in *. cbv iota in *.
  simpl Qnum in H. simpl Qden in H.
  set (d := Z.pos (Pos.of_nat (S (S (S (S (S (S n)))))))) in *.
  assert (0 < d)%Z by (unfold d; lia). nia.
Qed.

(** What a phrase that passed the candidate loop satisfies. *)
Lemma passes_stopword_filter_spec (stopwords : gset str) (phrase : str) :
  passes_stopword_filter stopwords phrase = true ->
  let words := PyStr.split phrase in
  let count := stopword_count stopwords words in
  count <= stopword_ceiling (length words)
  /\ count < length words
  /\ (length words = 2 -> count = 1 ->
      forall w, In w words -> w ∉ stopwords -> 3 <= length w).
Proof.
  intros H. cbv zeta. unfold passes_stopword_filter in H.
  destruct (is_empty phrase || negb (PyStr.contains (py " ") phrase));
    [discriminate H|].
  remember (PyStr.split phrase) as words eqn:Ew. clear Ew.
  remember (stopword_count stopwords words) as count eqn:Ec.
  assert (Hlen : 1 <= length words).
  { destruct words; [discriminate H|simpl; lia]. }
  assert (H' : (if (0 <? length words)
                   && Qle_bool (Z.of_nat count # Pos.of_nat (length words))
                        (max_allowed (length words))
                then if count =? length words then false
                     else if (length words =? 2) && (count =? 1)
                     then negb (length (hd [] (List.filter
                            (fun w => negb (bool_decide (w ∈ stopwords)))
                            words)) <? 3)
                     else true
                else false) = true).
  { destruct words; [discriminate H|exact H]. }
  clear H. rename H' into H.
  destruct ((0 <? length words) && _) eqn:Eq; [|discriminate H].
  apply andb_true_iff in Eq as [_ Eq].
  apply max_allowed_ceiling in Eq; [|exact Hlen].
  destruct (count =? length words) eqn:Eall; [discriminate H|].
  apply Nat.eqb_neq in Eall.
  pose proof (stopword_count_le stopwords words) as Hle. rewrite <- Ec in Hle.
  split; [exact Eq|split; [lia|]].
  intros Htwo Hone w Hw Hnot.
  rewrite Htwo, Hone in H. simpl in H.
  apply negb_true_iff, Nat.ltb_ge in H.
  destruct words as [|a [|b [|c l]]]; try discriminate Htwo.
  subst count. unfold stopword_count in Hone. simpl in Hone, H.
  destruct (bool_decide (a ∈ stopwords)) eqn:Ea,
           (bool_decide (b ∈ stopwords)) eqn:Eb;
    simpl in Hone, H; try discriminate Hone.
  - apply bool_decide_eq_true in Ea.
    destruct Hw as [<-|[<-|[]]]; [contradiction|exact H].
  - apply bool_decide_eq_true in Eb.
    destruct Hw as [<-|[<-|[]]]; [exact H|contradiction].
Qed.







(** * Membership by computation *)

Lemma existsb_eqb_In (p : str) (l : list str) :
  existsb (PyStr.eqb p) l = true <-> In p l.
Proof.
  rewrite existsb_exists. split.
  - intros [x [Hx Heq]]. apply PyStrFacts.eqb_eq in Heq. now subst.
  - intros H. exists p. split; [exact H|apply PyStrFacts.eqb_refl].
Qed.

Lemma In_by_eqb (p : str) (l : list str) :
  existsb (PyStr.eqb p) l = true -> In p l.
Proof. apply existsb_eqb_In. Qed.

Lemma existsb_eqb_not_In (p : str) (l : list str) :
  existsb (PyStr.eqb p) l = false -> ~ In p l.
Proof.
  intros H Hin. apply existsb_eqb_In in Hin. congruence.
Qed.


(** * The stopword-ratio filter and its post-processing *)

(** C3 as stated fails: with the stopwords "de", "het", "een" the two
    candidates "nieuwe corona maatregelen" and "corona maatregelen" are both
    returned (post-processing only runs on more than 20 phrases), and the
    normalized text of the second is a proper substring of the first's. *)
Lemma nested_phrases_retained :
  In (py "corona maatregelen")
    (filter_phrases_robust nested_candidates article_stopwords)
  /\ In (py "nieuwe corona maatregelen")
       (filter_phrases_robust nested_candidates article_stopwords)
  /\ PyStr.contains (normalize_phrase (py "corona maatregelen"))
       (normalize_phrase (py "nieuwe corona maatregelen")) = true
  /\ normalize_phrase (py "corona maatregelen")
     <> normalize_phrase (py "nieuwe corona maatregelen").
Proof.
  split; [|split; [|split]].
  - apply In_by_eqb. vm_compute. reflexivity.
  - apply In_by_eqb. vm_compute. reflexivity.
  - vm_compute. reflexivity.
  - vm_compute. intros H. discriminate H.
Qed.

(** C3 (as amended): when more than 20 candidates pass the stopword filter,
    no returned phrase [p] with fewer words than a returned phrase [q]
    occurs in [q] between word boundaries, both lowered and stripped. *)
Theorem no_true_subphrase_retained (phrases : list (str * Q))
    (stopwords : gset str) (p q : str) :
  20 < length (stopword_filtered phrases stopwords) ->
  In p (filter_phrases_robust phrases stopwords) ->
  In q (filter_phrases_robust phrases stopwords) ->
  length (PyStr.split (PyStr.strip (PyStr.lower p)))
  < length (PyStr.split (PyStr.strip (PyStr.lower q))) ->
  PyStr.contains (py " " ++ PyStr.strip (PyStr.lower p) ++ py " ")
    (py " " ++ PyStr.strip (PyStr.lower q) ++ py " ") = false.
Proof.
  intros Hmany Hp Hq Hwords. unfold filter_phrases_robust in Hp, Hq.
  destruct (is_empty_list phrases || bool_decide (stopwords = ∅));
    [destruct Hp|].
  unfold post_process in Hp, Hq.
  apply (proj2 (Nat.ltb_lt _ _)) in Hmany. rewrite Hmany in Hp, Hq.
  pose proof (remove_true_subphrases_spec _ p q Hp Hq) as H.
  unfold is_true_subphrase in H. apply (proj2 (Nat.ltb_lt _ _)) in Hwords.
  rewrite Hwords in H. exact H.
Qed.

Lemma no_true_subphrase_retained_witness :
  PyStr.contains
    (py " " ++ PyStr.strip (PyStr.lower (py "uitbraak amsterdam")) ++ py " ")
    (py " "
     ++ PyStr.strip (PyStr.lower (py "corona maatregelen nederland vandaag"))
     ++ py " ") = false.
Proof.
  apply (no_true_subphrase_retained mixed_candidates sample_stopwords
           (py "uitbraak amsterdam")
           (py "corona maatregelen nederland vandaag")).
  - vm_compute. lia.
  - apply In_by_eqb. vm_compute. reflexivity.
  - apply In_by_eqb. vm_compute. reflexivity.
  - vm_compute. lia.
Defined.

(** C4 as stated fails: of 21 candidates that pass the filter two are
    fused by the phrase merger into a phrase of 9 words with 6 stopwords,
    above the ceiling of 5, and that phrase is returned. *)
Lemma merged_phrase_exceeds_ceiling :
  In (py "de het een corona maatregelen nederland van in op")
    (filter_phrases_robust fused_candidates sample_stopwords)
  /\ length
       (PyStr.split (py "de het een corona maatregelen nederland van in op"))
     = 9
  /\ stopword_count sample_stopwords
       (PyStr.split (py "de het een corona maatregelen nederland van in op"))
     = 6
  /\ stopword_ceiling 9 = 5.
Proof.
  split; [|split; [|split]]; try (vm_compute; reflexivity).
  apply In_by_eqb. vm_compute. reflexivity.
Qed.

(** C4 (as amended): every phrase that passes the candidate loop of
    [filter_phrases_robust] has at most the ceiling's number of stopwords,
    is not made of stopwords only and, when it has two words one of which
    is a stopword, its other word has at least 3 characters; when at most
    20 phrases pass, the returned phrases are among them. *)
Theorem stopword_ceiling_holds (phrases : list (str * Q))
    (stopwords : gset str) (p : str) :
  In p (stopword_filtered phrases stopwords)
  \/ (length (stopword_filtered phrases stopwords) <= 20
      /\ In p (filter_phrases_robust phrases stopwords)) ->
  stopword_count stopwords (PyStr.split p)
  <= stopword_ceiling (length (PyStr.split p))
  /\ stopword_count stopwords (PyStr.split p) < length (PyStr.split p)
  /\ (length (PyStr.split p) = 2 ->
      stopword_count stopwords (PyStr.split p) = 1 ->
      forall w, In w (PyStr.split p) -> w ∉ stopwords -> 3 <= length w).
Proof.
  intros H.
  assert (Hin : In p (stopword_filtered phrases stopwords)).
  { destruct H as [H|[Hfew H]]; [exact H|].
    unfold filter_phrases_robust in H.
    destruct (is_empty_list phrases || bool_decide (stopwords = ∅));
      [destruct H|].
    unfold post_process in H.
    apply (proj2 (Nat.ltb_ge _ _)) in Hfew. rewrite Hfew in H. exact H. }
  apply filter_In in Hin as [_ Hpass].
  apply passes_stopword_filter_spec, Hpass.
Qed.

Lemma stopword_ceiling_holds_witness :
  stopword_count sample_stopwords
    (PyStr.split (py "de nieuwe corona maatregelen"))
  <= stopword_ceiling
       (length (PyStr.split (py "de nieuwe corona maatregelen")))
  /\ stopword_count sample_stopwords
       (PyStr.split (py "de nieuwe corona maatregelen"))
     < length (PyStr.split (py "de nieuwe corona maatregelen"))
  /\ (length (PyStr.split (py "de nieuwe corona maatregelen")) = 2 ->
      stopword_count sample_stopwords
        (PyStr.split (py "de nieuwe corona maatregelen")) = 1 ->
      forall w, In w (PyStr.split (py "de nieuwe corona maatregelen")) ->
                w ∉ sample_stopwords -> 3 <= length w).
Proof.
  apply (stopword_ceiling_holds
           [ (py "de nieuwe corona maatregelen", (9 # 10)%Q) ]
           sample_stopwords).
  left. apply In_by_eqb. vm_compute. reflexivity.
Defined.


(** * The prompt segment *)

(** C6 as stated fails: a list made of the prompt segment alone comes back
    unchanged from the merger; and in a run over the prompt segment (start
    12.0) and a second segment, the merger drops the prompt segment but the
    lookup records 12.0 for the keypoint "nieuws", which the prompt text
    contains, because it scans the segments as transcribed and not the
    merged ones. *)
Lemma prompt_segment_kept_and_timed :
  In prompt_segment (merge_similar_segments [prompt_segment] (4 # 10) None)
  /\ merge_similar_segments [prompt_segment; news_segment] (4 # 10) None
     = [news_segment]
  /\ In 12%Q
       (times_of (py "nieuws")
          (transcribe_and_extract (fun _ => [py "nieuws"])
             [prompt_segment; news_segment])).
Proof.
  split; [|split].
  - left. reflexivity.
  - vm_compute. reflexivity.
  - vm_compute. left. reflexivity.
Qed.

(** C6 (as amended): for every list of two or more segments, merged without
    a target timestamp, no returned segment carries the prompt as its text;
    the timestamp lookup scans [all_segments] as transcribed, not the merged
    list, and records for each keypoint the start of every segment whose
    text contains it, letter case aside. *)
Theorem prompt_segment_filtered (extract_keypoints : list Segment -> list str)
    (all_segments : list Segment) (similarity_threshold : Q) :
  2 <= length all_segments ->
  (forall out,
      In out (merge_similar_segments all_segments similarity_threshold None) ->
      text out <> WHISPER_PROMPT)
  /\ (forall kp t,
        In t (times_of kp (transcribe_and_extract extract_keypoints all_segments))
        <-> In kp (extract_keypoints
                     (merge_similar_segments all_segments (4 # 10) None))
            /\ exists seg, In seg all_segments /\ mentions kp seg = true
                           /\ t = start seg).
Proof.
  intros Hlen. split.
  - intros out. unfold merge_similar_segments.
    destruct (length all_segments <=? 1) eqn:E.
    + apply Nat.leb_le in E. lia.
    + apply merge_valid_not_prompt.
  - intros kp t. unfold transcribe_and_extract. apply keypoint_times_spec.
Qed.

Lemma prompt_segment_filtered_witness :
  (forall out,
      In out (merge_similar_segments [prompt_segment; news_segment]
                (4 # 10) None) ->
      text out <> WHISPER_PROMPT)
  /\ (forall kp t,
        In t (times_of kp
                (transcribe_and_extract (fun _ => [py "nieuws"])
                   [prompt_segment; news_segment]))
        <-> In kp [py "nieuws"]
            /\ exists seg, In seg [prompt_segment; news_segment]
                           /\ mentions kp seg = true /\ t = start seg).
Proof.
  apply (prompt_segment_filtered (fun _ => [py "nieuws"])
           [prompt_segment; news_segment] (4 # 10)).
  simpl. lia.
Defined.

(** * Scenarios *)

(** C1 (as amended): the two keypoints "corona maatregelen" [5.0] and
    "de nieuwe corona maatregelen" [5.0, 40.0] deduplicate into the single
    keypoint "de nieuwe corona maatregelen"; its timestamps are those of
    the entry already stored followed by the incoming ones,
    [5.0, 5.0, 40.0]. *)
Theorem dedup_scenario5 :
  deduplicate_phrases
    [ (py "corona maatregelen", [5%Q]);
      (py "de nieuwe corona maatregelen", [5%Q; 40%Q]) ]
  = [ (py "de nieuwe corona maatregelen", [5%Q; 5%Q; 40%Q]) ].
Proof. vm_compute. reflexivity. Qed.

(** C1 as stated fails: the timestamp list is not [5.0, 40.0, 5.0]. *)
Lemma dedup_scenario5_order :
  deduplicate_phrases
    [ (py "corona maatregelen", [5%Q]);
      (py "de nieuwe corona maatregelen", [5%Q; 40%Q]) ]
  <> [ (py "de nieuwe corona maatregelen", [5%Q; 40%Q; 5%Q]) ].
Proof. vm_compute. intros H. discriminate H. Qed.

(** C2: on the three keypoints "corona" [1.0], "maatregelen" [2.0] and
    "corona maatregelen" [3.0] one pass of the deduplicator leaves
    "maatregelen" next to "corona maatregelen", which contains it, and a
    second pass merges the two: the deduplicator is not idempotent. *)
Theorem dedup_twice_differs :
  deduplicate_phrases corona_keypoints
  = [ (py "corona maatregelen", [1%Q; 3%Q]); (py "maatregelen", [2%Q]) ]
  /\ deduplicate_phrases (deduplicate_phrases corona_keypoints)
     = [ (py "corona maatregelen", [1%Q; 3%Q; 2%Q]) ].
Proof. split; vm_compute; reflexivity. Qed.

(** C9: with threshold 0.5 the segments (0.0, 2.0, "het weer wordt morgen
    zonnig") and (2.0, 4.0, "het weer wordt morgen zonnig en warm") merge
    into one segment from 0.0 to 4.0 carrying the longer text. *)
Theorem merge_scenario1 :
  merge_similar_segments
    [ mkSegment 0 2 (py "het weer wordt morgen zonnig");
      mkSegment 2 4 (py "het weer wordt morgen zonnig en warm") ]
    (5 # 10) None
  = [ mkSegment 0 4 (py "het weer wordt morgen zonnig en warm") ].
Proof. vm_compute. reflexivity. Qed.

(** C8: the merger leaves "nieuwe maatregelen voor de economie" and
    "maatregelen voor de economie vandaag" as two entries.  The shared run
    of four words is found, but [merge_two_phrases] looks for it with a
    blank on both sides, and the run ends the first phrase and starts the
    second. *)
Theorem merge_scenario3_unmerged :
  find_common_sequence (PyStr.split scenario3_first)
    (PyStr.split scenario3_second)
  = map py ["maatregelen"; "voor"; "de"; "economie"]%string
  /\ merge_two_phrases scenario3_first scenario3_second
       (map py ["maatregelen"; "voor"; "de"; "economie"]%string) = None
  /\ merge_overlapping_phrases [scenario3_first; scenario3_second]
     = [scenario3_first; scenario3_second].
Proof. split; [|split]; vm_compute; reflexivity. Qed.

(** C7: three copies of one long word in different letter case make a text
    of 152 characters that the artifact check of [phrase_filtering.py]
    accepts, while it rejects the lowered text: the check for a repeated
    20-character sequence reads the text as given. *)
Theorem artifact_check_case_sensitive :
  length mixed_case_text = 152
  /\ is_whisper_artifact mixed_case_text = false
  /\ is_whisper_artifact (PyStr.lower mixed_case_text) = true.
Proof. split; [|split]; vm_compute; reflexivity. Qed.

(** The artifact check of [utils.py], which has no such last check, does
    not depend on letter case. *)
Lemma utils_artifact_check_ignores_case (s : str) :
  Utils.is_whisper_artifact (PyStr.lower s) = Utils.is_whisper_artifact s.
Proof.
  unfold Utils.is_whisper_artifact.
  rewrite PyStrFacts.lower_idem, PyStrFacts.strip_lower.
  unfold PyStr.lower at 1 2. rewrite !length_map. reflexivity.
Qed.

(** C10: with an empty stopword set both filters return the empty list,
    whatever the candidates. *)
Theorem empty_stopwords_drop_all (phrases words : list (str * Q)) :
  filter_phrases_robust phrases ∅ = []
  /\ filter_words_robust words ∅ = [].
Proof.
  unfold filter_phrases_robust, filter_words_robust.
  rewrite (bool_decide_eq_true_2 _ (eq_refl (∅ : gset str))).
  rewrite !orb_true_r. split; reflexivity.
Qed.

(** * Further properties: words and normalization *)

Module WordFacts.
Import PyStr PyStrFacts.

Lemma split_from_clean (s cur : str) :
  Forall (fun c => is_space c = false) cur ->
  Forall clean_word (split_from cur s).
Proof.
  revert cur. induction s as [|c s IH]; intros cur Hcur; simpl.
  - destruct cur as [|x cur]; constructor; [|constructor].
    split; [discriminate|exact Hcur].
  - destruct (is_space c) eqn:Ec.
    + destruct cur as [|x cur]; [apply IH; constructor|].
      constructor; [split; [discriminate|exact Hcur]|apply IH; constructor].
    + apply IH. apply List.Forall_app. split; [exact Hcur|].
      constructor; [exact Ec|constructor].
Qed.

Lemma split_clean (s : str) : Forall clean_word (split s).
Proof. apply split_from_clean. constructor. Qed.

Lemma split_from_word (w cur rest : str) :
  Forall (fun c => is_space c = false) w ->
  split_from cur (w ++ rest) = split_from (cur ++ w) rest.
Proof.
  intros Hw. revert cur. induction Hw as [|c w Hc Hw IH]; intros cur; simpl.
  - now rewrite app_nil_r.
  - rewrite Hc, IH, <- app_assoc. reflexivity.
Qed.

(** Round trip: joining clean_word words with one blank and splitting again
    gives the words back. *)
Lemma split_join (ws : list str) :
  Forall clean_word ws -> split (join [space] ws) = ws.
Proof.
  unfold split. induction 1 as [|w ws [Hne Hw] Hws IH]; [reflexivity|].
  destruct ws as [|w' ws].
  - simpl. pose proof (split_from_word w [] [] Hw) as E.
    rewrite app_nil_r in E. rewrite E. simpl.
    destruct w; [congruence|reflexivity].
  - change (join [space] (w :: w' :: ws))
      with (w ++ space :: join [space] (w' :: ws)).
    rewrite split_from_word by exact Hw. cbn [app].
    destruct w as [|c w]; [congruence|].
    cbn [split_from]. change (is_space space) with true. cbv iota.
    f_equal. exact IH.
Qed.

Lemma lower_join (ws : list str) :
  lower (join [space] ws) = join [space] (map lower ws).
Proof.
  induction ws as [|w ws IH]; [reflexivity|].
  destruct ws as [|w' ws]; [reflexivity|].
  change (join [space] (w :: w' :: ws))
    with (w ++ space :: join [space] (w' :: ws)).
  unfold lower at 1. rewrite map_app. cbn [map]. fold (lower w).
  fold (lower (join [space] (w' :: ws))). rewrite IH. reflexivity.
Qed.

Lemma lower_clean (w : str) : clean_word w -> clean_word (lower w).
Proof.
  intros [Hne Hw]. split.
  - destruct w; [congruence|discriminate].
  - unfold lower. apply List.Forall_map. eapply List.Forall_impl; [|exact Hw].
    intros c Hc. simpl. now rewrite is_space_lower.
Qed.

End WordFacts.

(** X1: normalizing a phrase twice is the same as normalizing it once. *)
Theorem normalize_phrase_idempotent (phrase : str) :
  normalize_phrase (normalize_phrase phrase) = normalize_phrase phrase.
Proof.
  unfold normalize_phrase. change (py " ") with [PyStr.space].
  rewrite WordFacts.lower_join, SplitFacts.split_lower, map_map.
  rewrite (map_ext _ _ PyStrFacts.lower_idem).
  rewrite WordFacts.split_join; [reflexivity|].
  apply List.Forall_map. eapply List.Forall_impl; [|apply WordFacts.split_clean].
  intros w Hw. now apply WordFacts.lower_clean.
Qed.

(** X2: the normalized phrase has the words of the phrase, lowered, and
    nothing else: splitting it gives exactly those words. *)
Theorem normalize_phrase_words (phrase : str) :
  PyStr.split (normalize_phrase phrase)
  = map PyStr.lower (PyStr.split phrase).
Proof.
  unfold normalize_phrase. change (py " ") with [PyStr.space].
  rewrite SplitFacts.split_lower. apply WordFacts.split_join.
  apply List.Forall_map. eapply List.Forall_impl; [|apply WordFacts.split_clean].
  intros w Hw. now apply WordFacts.lower_clean.
Qed.

(** * Further properties: the deduplicator *)

Lemma NoDup_app_snoc {A} (l : list A) (x : A) :
  List.NoDup l -> ~ In x l -> List.NoDup (l ++ [x]).
Proof.
  intros Hl Hx. apply List.NoDup_app; [exact Hl|repeat constructor; tauto|].
  intros y Hy [<-|[]]. contradiction.
Qed.

Section DictFacts.

Context {V : Type}.

Lemma dict_get_None (k : str) (d : list (str * V)) :
  dict_get k d = None <-> ~ In k (map fst d).
Proof.
  induction d as [|[k' v] d IH]; simpl; [tauto|].
  destruct (PyStr.eqb k k') eqn:E.
  - apply PyStrFacts.eqb_eq in E. subst k'. split; [discriminate|tauto].
  - assert (k' <> k).
    { intros ->. rewrite PyStrFacts.eqb_refl in E. discriminate E. }
    tauto.
Qed.

(** An entry that is present splits the dictionary around it. *)
Lemma dict_get_split (k : str) (v0 : V) (d : list (str * V)) :
  dict_get k d = Some v0 ->
  exists d1 d2,
    d = d1 ++ (k, v0) :: d2
    /\ (forall v, dict_set k v d = d1 ++ (k, v) :: d2)
    /\ dict_del k d = d1 ++ d2.
Proof.
  induction d as [|[k' v'] d IH]; simpl; [discriminate|].
  destruct (PyStr.eqb k k') eqn:E.
  - apply PyStrFacts.eqb_eq in E. subst k'. intros [= ->].
    exists [], d. repeat split.
  - intros H. destruct (IH H) as (d1 & d2 & -> & Hset & Hdel).
    exists ((k', v') :: d1), d2. simpl. split; [reflexivity|].
    split; [intros v; now rewrite Hset|now rewrite Hdel].
Qed.

Lemma dict_set_new (k : str) (v : V) (d : list (str * V)) :
  dict_get k d = None -> dict_set k v d = d ++ [(k, v)].
Proof.
  induction d as [|[k' v'] d IH]; simpl; [reflexivity|].
  destruct (PyStr.eqb k k'); [discriminate|].
  intros H. now rewrite IH.
Qed.

Lemma dict_get_In_NoDup (k : str) (v : V) (d : list (str * V)) :
  List.NoDup (map fst d) -> In (k, v) d -> dict_get k d = Some v.
Proof.
  induction d as [|[k' v'] d IH]; simpl; [tauto|].
  intros Hnd [[= -> ->]|Hin].
  - now rewrite PyStrFacts.eqb_refl.
  - inversion Hnd as [|? ? Hnotin Hnd']; subst.
    destruct (PyStr.eqb k k') eqn:E; [|auto].
    apply PyStrFacts.eqb_eq in E. subst k'. exfalso. apply Hnotin.
    apply in_map_iff. exists (k, v). auto.
Qed.

End DictFacts.

Lemma first_similar_In (n : str) (d : phrase_dict) (k0 : str)
    (v0 : str * list Q) :
  first_similar n d = Some (k0, v0) -> In (k0, v0) d.
Proof.
  induction d as [|[k v] d IH]; simpl; [discriminate|].
  destruct (PyStr.contains n k || PyStr.contains k n).
  - intros [= -> ->]. now left.
  - intros H. right. auto.
Qed.

Lemma dict_times_app (d1 d2 : phrase_dict) :
  dict_times (d1 ++ d2) = dict_times d1 ++ dict_times d2.
Proof. unfold dict_times. now rewrite map_app, concat_app. Qed.

Lemma dict_times_cons (e : str * (str * list Q)) (d : phrase_dict) :
  dict_times (e :: d) = snd (snd e) ++ dict_times d.
Proof. reflexivity. Qed.

Lemma concat_snd_snoc (read : list (str * list Q)) (p : str) (ts : list Q) :
  concat (map snd (read ++ [(p, ts)])) = concat (map snd read) ++ ts.
Proof. rewrite map_app, concat_app. simpl. now rewrite app_nil_r. Qed.

Lemma dedup_step_inv (d : phrase_dict) (read : list (str * list Q))
    (p : str) (ts : list Q) :
  dedup_inv d read -> dedup_inv (dedup_step d (p, ts)) (read ++ [(p, ts)]).
Proof.
  intros (Hnd & Hkeys & Hperm & Hlen). unfold dedup_step.
  assert (Hread : forall q, In q (map fst read) ->
                    In q (map fst (read ++ [(p, ts)]))).
  { intros q Hq. rewrite map_app. apply in_or_app. now left. }
  assert (Hp : In p (map fst (read ++ [(p, ts)]))).
  { rewrite map_app. apply in_or_app. right. now left. }
  assert (Hlen' : length (read ++ [(p, ts)]) = S (length read)).
  { rewrite List.length_app. simpl. lia. }
  set (n := normalize_phrase p).
  destruct (dict_get n d) as [[ep et]|] eqn:Eget.
  - (* the normalized phrase is a key already *)
    destruct (dict_get_split _ _ _ Eget) as (d1 & d2 & Hd & Hset & _).
    assert (Hinv : forall x,
               (x = p \/ x = ep) ->
               dedup_inv (d1 ++ (n, (x, et ++ ts)) :: d2)
                 (read ++ [(p, ts)])).
    { intros x Hx. subst d. repeat split.
      - rewrite map_app in *. exact Hnd.
      - apply in_app_or in H as [H|[[= <- <- <-]|H]].
        + apply (Hkeys k p0 ts0). apply in_or_app. now left.
        + destruct Hx as [->| ->]; [reflexivity|].
          apply (Hkeys n ep et). apply in_or_app. right. now left.
        + apply (Hkeys k p0 ts0). apply in_or_app. right. now right.
      - apply in_app_or in H as [H|[[= <- <- <-]|H]].
        + apply Hread, (Hkeys k p0 ts0). apply in_or_app. now left.
        + destruct Hx as [->| ->]; [exact Hp|].
          apply Hread, (Hkeys n ep et). apply in_or_app. right. now left.
        + apply Hread, (Hkeys k p0 ts0). apply in_or_app. right. now right.
      - rewrite concat_snd_snoc, <- Hperm.
        rewrite !dict_times_app, !dict_times_cons. simpl.
        rewrite <- !app_assoc.
        apply Permutation_app_head, Permutation_app_head.
        apply Permutation_app_comm.
      - rewrite Hlen'. rewrite ?Hlen'. rewrite !List.length_app in *. simpl in *. lia. }
    destruct (length ep <? length p); rewrite Hset; apply Hinv; auto.
  - destruct (first_similar n d) as [[k0 [ep et]]|] eqn:Esim.
    + (* merged with the first similar entry *)
      apply first_similar_In in Esim.
      pose proof (dict_get_In_NoDup _ _ _ Hnd Esim) as Eget0.
      destruct (dict_get_split _ _ _ Eget0) as (d1 & d2 & Hd & Hset & Hdel).
      destruct (Hkeys _ _ _ Esim) as [Hk0 Hep].
      destruct (length ep <? length p).
      * rewrite Hdel. rewrite dict_set_new.
        2:{ apply dict_get_None. apply dict_get_None in Eget. subst d.
            rewrite map_app in *. simpl in Eget. intros H. apply Eget.
            apply in_app_or in H as [H|H]; apply in_or_app; auto.
            right. now right. }
        subst d. repeat split.
        -- apply dict_get_None in Eget. rewrite !map_app in *. simpl in *.
           apply List.NoDup_remove in Hnd as [Hnd Hk].
           rewrite ?app_assoc. apply NoDup_app_snoc; [exact Hnd|].
           intros H. apply Eget. apply in_app_or in H as [H|H];
             apply in_or_app; auto. right. now right.
        -- rewrite ?app_assoc in H.
           apply in_app_or in H as [H|[[= <- <- <-]|[]]]; [|reflexivity].
           apply (Hkeys k p0 ts0).
           apply in_app_or in H as [H|H]; apply in_or_app; auto.
           right. now right.
        -- rewrite ?app_assoc in H.
           apply in_app_or in H as [H|[[= <- <- <-]|[]]]; [|exact Hp].
           apply Hread, (Hkeys k p0 ts0).
           apply in_app_or in H as [H|H]; apply in_or_app; auto.
           right. now right.
        -- rewrite concat_snd_snoc, <- Hperm.
           rewrite !dict_times_app, !dict_times_cons. simpl.
           rewrite app_nil_r, <- !app_assoc.
           apply Permutation_app_head.
           rewrite app_assoc. rewrite (app_assoc et).
           apply Permutation_app_tail, Permutation_app_comm.
        -- rewrite ?Hlen'. rewrite !List.length_app in *. simpl in *. lia.
      * rewrite Hset. subst d. repeat split.
        -- rewrite map_app in *. exact Hnd.
        -- apply in_app_or in H as [H|[[= <- <- <-]|H]].
           ++ apply (Hkeys k p0 ts0). apply in_or_app. now left.
           ++ exact Hk0.
           ++ apply (Hkeys k p0 ts0). apply in_or_app. right. now right.
        -- apply in_app_or in H as [H|[[= <- <- <-]|H]].
           ++ apply Hread, (Hkeys k p0 ts0). apply in_or_app. now left.
           ++ apply Hread, Hep.
           ++ apply Hread, (Hkeys k p0 ts0). apply in_or_app. right.
              now right.
        -- rewrite concat_snd_snoc, <- Hperm.
           rewrite !dict_times_app, !dict_times_cons. simpl.
           rewrite <- !app_assoc.
           apply Permutation_app_head, Permutation_app_head.
           apply Permutation_app_comm.
        -- rewrite Hlen'. rewrite ?Hlen'. rewrite !List.length_app in *. simpl in *. lia.
    + (* a new entry *)
      rewrite dict_set_new by exact Eget. repeat split.
      * rewrite map_app. simpl. apply NoDup_app_snoc; [exact Hnd|].
        now apply dict_get_None.
      * apply in_app_or in H as [H|[[= <- <- <-]|[]]]; [|reflexivity].
        apply (Hkeys k p0 ts0 H).
      * apply in_app_or in H as [H|[[= <- <- <-]|[]]]; [|exact Hp].
        apply Hread, (Hkeys k p0 ts0 H).
      * rewrite concat_snd_snoc, <- Hperm, dict_times_app.
        unfold dict_times at 2. simpl. now rewrite app_nil_r.
      * rewrite !List.length_app. simpl. lia.
Qed.

Lemma dedup_loop_inv (l : list (str * list Q)) :
  forall d read,
    dedup_inv d read -> dedup_inv (fold_left dedup_step l d) (read ++ l).
Proof.
  induction l as [|[p ts] l IH]; intros d read H; cbn [fold_left].
  - now rewrite app_nil_r.
  - change ((p, ts) :: l) with ([(p, ts)] ++ l). rewrite app_assoc.
    apply IH, dedup_step_inv, H.
Qed.

Lemma dedup_inv_result (l : list (str * list Q)) :
  dedup_inv (fold_left dedup_step l []) l.
Proof.
  apply (dedup_loop_inv l [] []). repeat split; simpl; try lia.
  - constructor.
  - destruct H.
  - destruct H.
  - constructor.
Qed.

Lemma Permutation_concat_map {A B} (f : A -> list B) (l l' : list A) :
  Permutation l l' -> Permutation (concat (map f l)) (concat (map f l')).
Proof.
  induction 1; simpl.
  - constructor.
  - now apply Permutation_app_head.
  - rewrite !app_assoc. apply Permutation_app_tail, Permutation_app_comm.
  - etransitivity; eassumption.
Qed.

Lemma deduplicate_phrases_perm (l : list (str * list Q)) :
  Permutation (deduplicate_phrases l) (map snd (fold_left dedup_step l [])).
Proof.
  unfold deduplicate_phrases. destruct l as [|e l]; [reflexivity|].
  apply sorted_desc_perm.
Qed.

(** X3: deduplication neither loses nor invents a timestamp: the timestamps
    of the result, taken together, are those of the input, rearranged. *)
Theorem deduplicate_phrases_keeps_timestamps (l : list (str * list Q)) :
  Permutation (concat (map snd (deduplicate_phrases l))) (concat (map snd l)).
Proof.
  destruct (dedup_inv_result l) as (_ & _ & Hperm & _).
  rewrite (Permutation_concat_map snd _ _ (deduplicate_phrases_perm l)).
  unfold dict_times in Hperm. rewrite map_map. exact Hperm.
Qed.

Lemma deduplicate_phrases_In (l : list (str * list Q)) (p : str)
    (ts : list Q) :
  In (p, ts) (deduplicate_phrases l) -> In p (map fst l).
Proof.
  destruct (dedup_inv_result l) as (_ & Hkeys & _ & _). intros H.
  apply (Permutation_in _ (deduplicate_phrases_perm l)) in H.
  apply in_map_iff in H as [[k [p' ts']] [[= -> ->] H]].
  apply (Hkeys k p ts H).
Qed.

(** X4: every phrase of the result is one of the input phrases, spelled as
    it was given, and the result has no more entries than the input. *)
Theorem deduplicate_phrases_selects (l : list (str * list Q)) :
  (forall p ts, In (p, ts) (deduplicate_phrases l) -> In p (map fst l))
  /\ length (deduplicate_phrases l) <= length l.
Proof.
  destruct (dedup_inv_result l) as (_ & _ & _ & Hlen). split.
  - apply deduplicate_phrases_In.
  - rewrite (Permutation_length (deduplicate_phrases_perm l)).
    now rewrite length_map.
Qed.

(** X5: no two entries of the result have the same normalized text. *)
Theorem deduplicate_phrases_distinct (l : list (str * list Q)) :
  List.NoDup (map (fun e => normalize_phrase (fst e)) (deduplicate_phrases l)).
Proof.
  destruct (dedup_inv_result l) as (Hnd & Hkeys & _ & _).
  eapply Permutation_NoDup.
  - apply Permutation_map. symmetry. apply deduplicate_phrases_perm.
  - rewrite map_map.
    erewrite map_ext_in; [exact Hnd|].
    intros [k [p ts]] H. simpl. symmetry. apply (Hkeys k p ts H).
Qed.

(** * Further properties: sub-phrase eliminator and phrase merger *)

Lemma sorted_desc_fixed {A} (key : A -> nat) (l : list A) :
  StronglySorted (desc key) l -> sorted_desc key l = l.
Proof.
  induction 1 as [|x l Hl IH Hx]; [reflexivity|].
  simpl. rewrite IH. destruct l as [|y l]; [reflexivity|].
  simpl. inversion Hx as [|? ? Hy _]; subst. unfold desc in Hy.
  destruct (key x <? key y) eqn:E; [|reflexivity].
  apply Nat.ltb_lt in E. lia.
Qed.

Lemma StronglySorted_snoc {A} (R : A -> A -> Prop) (l : list A) (x : A) :
  StronglySorted R l -> (forall e, In e l -> R e x) ->
  StronglySorted R (l ++ [x]).
Proof.
  induction 1 as [|y l Hl IH Hy]; intros Hx; simpl.
  - repeat constructor.
  - constructor; [apply IH; intros e He; apply Hx; now right|].
    apply List.Forall_app. split; [exact Hy|].
    constructor; [apply Hx; now left|constructor].
Qed.

Lemma keep_loop_sorted (l : list str) :
  StronglySorted (desc word_count) l ->
  forall acc,
    StronglySorted (desc word_count) acc ->
    (forall e x, In e acc -> In x l -> word_count x <= word_count e) ->
    StronglySorted (desc word_count) (fold_left keep_if_not_subphrase l acc).
Proof.
  induction 1 as [|x l Hl IH Hx]; intros acc Hacc Hkey; [exact Hacc|].
  cbn [fold_left]. rewrite List.Forall_forall in Hx. apply IH.
  - unfold keep_if_not_subphrase.
    destruct (existsb (is_true_subphrase x) acc); [exact Hacc|].
    apply StronglySorted_snoc; [exact Hacc|].
    intros e He. apply (Hkey e x He). now left.
  - intros e y He Hy. apply keep_if_not_subphrase_In in He as [He| ->].
    + apply (Hkey e y He). now right.
    + apply (Hx y Hy).
Qed.

Lemma keep_loop_all (l : list str) :
  forall acc,
    (forall x e, In x l -> In e (acc ++ l) -> is_true_subphrase x e = false) ->
    fold_left keep_if_not_subphrase l acc = acc ++ l.
Proof.
  induction l as [|x l IH]; intros acc H; cbn [fold_left].
  - now rewrite app_nil_r.
  - unfold keep_if_not_subphrase at 2.
    assert (E : existsb (is_true_subphrase x) acc = false).
    { apply not_true_is_false. intros Hex.
      apply existsb_exists in Hex as [e [He Hs]].
      rewrite (H x e) in Hs; [discriminate Hs|now left|].
      apply in_or_app. now left. }
    rewrite E, IH; [now rewrite <- app_assoc|].
    intros y e Hy He. apply H; [now right|]. now rewrite <- app_assoc in He.
Qed.

Lemma keep_loop_prefix (l : list str) :
  forall acc, exists r, fold_left keep_if_not_subphrase l acc = acc ++ r.
Proof.
  induction l as [|x l IH]; intros acc; cbn [fold_left].
  - exists []. now rewrite app_nil_r.
  - destruct (IH (keep_if_not_subphrase acc x)) as [r Hr]. rewrite Hr.
    unfold keep_if_not_subphrase.
    destruct (existsb (is_true_subphrase x) acc); [now exists r|].
    exists (x :: r). now rewrite <- app_assoc.
Qed.

Lemma keep_loop_In (l : list str) :
  forall acc p,
    In p (fold_left keep_if_not_subphrase l acc) -> In p acc \/ In p l.
Proof.
  induction l as [|x l IH]; intros acc p H; cbn [fold_left] in H; [now left|].
  apply IH in H as [H|H]; [|right; now right].
  apply keep_if_not_subphrase_In in H as [H| ->]; [now left|right; now left].
Qed.

(** X7: removing sub-phrases from a list that already went through the
    removal changes nothing. *)
Theorem remove_true_subphrases_idempotent (phrases : list str) :
  remove_true_subphrases (remove_true_subphrases phrases)
  = remove_true_subphrases phrases.
Proof.
  unfold remove_true_subphrases at 2 3.
  destruct (length phrases <=? 1) eqn:E.
  - unfold remove_true_subphrases. now rewrite E.
  - set (kept := fold_left keep_if_not_subphrase
                   (sorted_desc word_count phrases) []).
    assert (Hsorted : StronglySorted (desc word_count) kept).
    { apply keep_loop_sorted; [apply sorted_desc_sorted|constructor|].
      intros e x []. }
    assert (Hfree : forall p q, In p kept -> In q kept ->
                      is_true_subphrase p q = false).
    { apply keep_loop_no_subphrase; [apply sorted_desc_sorted| |].
      - intros e x [].
      - intros p q []. }
    unfold remove_true_subphrases.
    destruct (length kept <=? 1); [reflexivity|].
    rewrite sorted_desc_fixed by exact Hsorted.
    rewrite keep_loop_all; [reflexivity|].
    intros x e Hx He. apply Hfree; assumption.
Qed.

(** X8: the sub-phrase eliminator only selects: every returned phrase is an
    input phrase, and a non-empty input gives a non-empty result. *)
Theorem remove_true_subphrases_selects (phrases : list str) :
  (forall p, In p (remove_true_subphrases phrases) -> In p phrases)
  /\ (phrases <> [] -> remove_true_subphrases phrases <> []).
Proof.
  unfold remove_true_subphrases.
  destruct (length phrases <=? 1) eqn:E; [tauto|]. split.
  - intros p H. apply keep_loop_In in H as [[]|H].
    now apply sorted_desc_In in H.
  - intros _ Hnil.
    pose proof (sorted_desc_length word_count phrases) as Hlen.
    destruct (sorted_desc word_count phrases) as [|x l].
    + apply Nat.leb_gt in E. simpl in Hlen. lia.
    + cbn [fold_left] in Hnil.
      destruct (keep_loop_prefix l (keep_if_not_subphrase [] x)) as [r Hr].
      rewrite Hr in Hnil. discriminate Hnil.
Qed.

(** Where the best merge of a phrase comes from. *)
Lemma try_merge_origin (phrase : str) (i : nat) (used : gset nat)
    (phrase_words : list str) (pool : list str) (l : list (nat * str)) :
  (forall e, In e l -> In (snd e) pool) ->
  forall st,
    (fst (fst st) = phrase
     \/ exists other c, In other pool
          /\ merge_two_phrases phrase other c = Some (fst (fst st))) ->
    let st' := fold_left (try_merge phrase i used phrase_words) l st in
    fst (fst st') = phrase
    \/ exists other c, In other pool
         /\ merge_two_phrases phrase other c = Some (fst (fst st')).
Proof.
  induction l as [|[j other] l IH]; intros Hl st Hst; [exact Hst|].
  cbn [fold_left]. apply IH; [intros e He; apply Hl; now right|].
  destruct st as [[best len] merged_with]. unfold try_merge.
  repeat match goal with
         | |- context [if ?b then _ else _] => destruct b eqn:?
         | |- context [match ?o with Some _ => _ | None => _ end] =>
             destruct o eqn:?
         end;
    try exact Hst.
  all: right; eexists other, _; split; [apply (Hl (j, other)); now left|].
  all: simpl; eassumption.
Qed.

Lemma merge_phrase_step_origin (sorted_phrases : list str)
    (st : list str * gset nat) (entry : nat * str) :
  In (snd entry) sorted_phrases ->
  forall p,
    In p (fst (merge_phrase_step sorted_phrases st entry)) ->
    In p (fst st) \/ In p sorted_phrases
    \/ exists a b c, In a sorted_phrases /\ In b sorted_phrases
         /\ merge_two_phrases a b c = Some p.
Proof.
  destruct st as [merged used], entry as [i phrase]. simpl. intros Hin p.
  unfold merge_phrase_step.
  destruct (bool_decide (i ∈ used)); [now left|].
  set (pw := PyStr.split (PyStr.strip (PyStr.lower phrase))).
  pose proof (try_merge_origin phrase i used pw sorted_phrases
                (enumerate sorted_phrases)
                ltac:(intros [j s] He; simpl;
                      now apply enumerate_from_In in He)
                (phrase, length pw, []) (or_introl eq_refl)) as H.
  cbv zeta in H.
  destruct (fold_left _ _ _) as [[best len] merged_with]. simpl in *.
  intros Hp. apply in_app_or in Hp as [Hp|[<-|[]]]; [now left|right].
  destruct H as [->|(other & c & Ho & Hm)]; [now left|right].
  exists phrase, other, c. auto.
Qed.

Lemma merge_phrase_loop_origin (sorted_phrases : list str)
    (l : list (nat * str)) :
  (forall e, In e l -> In (snd e) sorted_phrases) ->
  forall st p,
    In p (fst (fold_left (merge_phrase_step sorted_phrases) l st)) ->
    In p (fst st) \/ In p sorted_phrases
    \/ exists a b c, In a sorted_phrases /\ In b sorted_phrases
         /\ merge_two_phrases a b c = Some p.
Proof.
  induction l as [|e l IH]; intros Hl st p H; cbn [fold_left] in H;
    [now left|].
  apply IH in H; [|intros e' He'; apply Hl; now right].
  destruct H as [H|H]; [|now right].
  apply merge_phrase_step_origin in H; [exact H|]. apply Hl. now left.
Qed.

Lemma merge_phrase_loop_prefix (sorted_phrases : list str)
    (l : list (nat * str)) :
  forall st, exists r,
    fst (fold_left (merge_phrase_step sorted_phrases) l st) = fst st ++ r
    /\ length r <= length l.
Proof.
  induction l as [|e l IH]; intros st; cbn [fold_left].
  - exists []. rewrite app_nil_r. split; [reflexivity|simpl; lia].
  - destruct (IH (merge_phrase_step sorted_phrases st e)) as [r [Hr Hlen]].
    rewrite Hr.
    destruct (merge_phrase_step_out sorted_phrases st e) as [->|[b [-> _]]].
    + exists r. split; [reflexivity|simpl; lia].
    + exists (b :: r). rewrite <- app_assoc. split; [reflexivity|simpl; lia].
Qed.

Lemma merge_overlapping_phrases_loop (phrases : list str) :
  (length phrases <=? 1) = false ->
  merge_overlapping_phrases phrases
  = fst (fold_left (merge_phrase_step (sorted_desc word_count phrases))
           (enumerate (sorted_desc word_count phrases)) ([], ∅)).
Proof.
  intros E. unfold merge_overlapping_phrases. rewrite E.
  set (sorted_phrases := sorted_desc word_count phrases).
  pose proof (merge_phrase_loop_used sorted_phrases (enumerate sorted_phrases)
                ([], ∅)) as [_ Hused].
  destruct (fold_left (merge_phrase_step sorted_phrases) _ _)
    as [merged used].
  now apply add_unused_all_used.
Qed.

(** X9: the phrase merger returns at most as many phrases as it was given
    and, given any, at least one; the closing loop over unused phrases
    never adds one. *)
Theorem merge_overlapping_phrases_size (phrases : list str) :
  length (merge_overlapping_phrases phrases) <= length phrases
  /\ (phrases <> [] -> merge_overlapping_phrases phrases <> []).
Proof.
  destruct (length phrases <=? 1) eqn:E.
  - unfold merge_overlapping_phrases. rewrite E. split; [lia|tauto].
  - rewrite merge_overlapping_phrases_loop by exact E.
    set (sorted_phrases := sorted_desc word_count phrases).
    pose proof (sorted_desc_length word_count phrases) as Hlen.
    fold sorted_phrases in Hlen.
    split.
    + destruct (merge_phrase_loop_prefix sorted_phrases
                  (enumerate sorted_phrases) ([], ∅)) as [r [-> Hr]].
      simpl. unfold enumerate in Hr.
      rewrite <- (length_map snd), enumerate_from_snd in Hr. lia.
    + intros _ Hnil. apply Nat.leb_gt in E.
      destruct sorted_phrases as [|x l]; [simpl in Hlen; lia|].
      unfold enumerate in Hnil. cbn [enumerate_from fold_left] in Hnil.
      destruct (merge_phrase_loop_prefix (x :: l) (enumerate_from 1 l)
                  (merge_phrase_step (x :: l) ([], ∅) (0, x))) as [r [Hr _]].
      rewrite Hr in Hnil.
      unfold merge_phrase_step in Hnil at 1.
      rewrite bool_decide_eq_false_2 in Hnil by set_solver.
      destruct (fold_left _ _ _) as [[best len] merged_with].
      simpl in Hnil. discriminate Hnil.
Qed.

(** X10: every phrase the merger returns is an input phrase or the merge,
    by [merge_two_phrases], of two input phrases. *)
Theorem merge_overlapping_phrases_origin (phrases : list str) (p : str) :
  In p (merge_overlapping_phrases phrases) ->
  In p phrases
  \/ exists a b c, In a phrases /\ In b phrases
       /\ merge_two_phrases a b c = Some p.
Proof.
  destruct (length phrases <=? 1) eqn:E.
  - unfold merge_overlapping_phrases. rewrite E. now left.
  - rewrite merge_overlapping_phrases_loop by exact E. intros H.
    apply merge_phrase_loop_origin in H.
    + destruct H as [[]|[H|(a & b & c & Ha & Hb & Hm)]].
      * left. now apply sorted_desc_In in H.
      * right. exists a, b, c. apply sorted_desc_In in Ha, Hb. auto.
    + intros [j s] He. simpl. unfold enumerate in He.
      now apply enumerate_from_In in He.
Qed.

Lemma merge_overlapping_phrases_origin_witness :
  In (py "de het een corona maatregelen nederland van in op")
    [ py "de het een corona maatregelen nederland vandaag";
      py "ook corona maatregelen nederland van in op" ]
  \/ exists a b c,
       In a [ py "de het een corona maatregelen nederland vandaag";
              py "ook corona maatregelen nederland van in op" ]
       /\ In b [ py "de het een corona maatregelen nederland vandaag";
                 py "ook corona maatregelen nederland van in op" ]
       /\ merge_two_phrases a b c
          = Some (py "de het een corona maatregelen nederland van in op").
Proof.
  apply (merge_overlapping_phrases_origin
           [ py "de het een corona maatregelen nederland vandaag";
             py "ook corona maatregelen nederland van in op" ]).
  apply In_by_eqb. vm_compute. reflexivity.
Defined.

(** * Further properties: common runs and text similarity *)

Lemma eqb_sym (a b : str) : PyStr.eqb a b = PyStr.eqb b a.
Proof.
  destruct (PyStr.eqb a b) eqn:E1, (PyStr.eqb b a) eqn:E2; try reflexivity.
  - apply PyStrFacts.eqb_eq in E1. subst.
    rewrite PyStrFacts.eqb_refl in E2. discriminate E2.
  - apply PyStrFacts.eqb_eq in E2. subst.
    rewrite PyStrFacts.eqb_refl in E1. discriminate E1.
Qed.

Lemma common_run_sym (a b : list str) : common_run a b = common_run b a.
Proof.
  revert b. induction a as [|x a IH]; intros [|y b]; simpl; try reflexivity.
  rewrite eqb_sym, IH. reflexivity.
Qed.

Lemma common_run_take (a b : list str) :
  take (common_run a b) a = take (common_run a b) b.
Proof.
  revert b. induction a as [|x a IH]; intros [|y b]; simpl; try reflexivity.
  destruct (PyStr.eqb x y) eqn:E; [|reflexivity].
  apply PyStrFacts.eqb_eq in E. subst y. simpl. now rewrite IH.
Qed.

Lemma take_drop_infix {A} (i n : nat) (l : list A) :
  l = take i l ++ take n (drop i l) ++ drop n (drop i l).
Proof. now rewrite !firstn_skipn. Qed.

(** X11: the sequence [find_common_sequence] returns is a run of consecutive
    words of both word lists, lowered. *)
Theorem find_common_sequence_is_common (words1 words2 : list str) :
  exists before1 after1 before2 after2,
    map PyStr.lower words1
    = before1 ++ find_common_sequence words1 words2 ++ after1
    /\ map PyStr.lower words2
       = before2 ++ find_common_sequence words1 words2 ++ after2.
Proof.
  unfold find_common_sequence.
  destruct words1 as [|a1 l1].
  { exists [], [], [], (map PyStr.lower words2). split; reflexivity. }
  destruct words2 as [|a2 l2].
  { exists [], (map PyStr.lower (a1 :: l1)), [], []. split; reflexivity. }
  set (w1 := map PyStr.lower (a1 :: l1)).
  set (w2 := map PyStr.lower (a2 :: l2)).
  set (good := fun st : nat * list str =>
                 exists b1 e1 b2 e2,
                   w1 = b1 ++ snd st ++ e1 /\ w2 = b2 ++ snd st ++ e2).
  assert (Hinner : forall i js st, good st ->
            good (fold_left
                    (fun (st : nat * list str) j =>
                       let '(max_length, best_sequence) := st in
                       let length_ := common_run (drop i w1) (drop j w2) in
                       if max_length <? length_
                       then (length_, PyStr.slice i (i + length_) w1)
                       else st) js st)).
  { intros i js. induction js as [|j js IH]; intros st Hst; [exact Hst|].
    cbn [fold_left]. apply IH. destruct st as [m best].
    destruct (m <? common_run (drop i w1) (drop j w2)); [|exact Hst].
    unfold good, PyStr.slice. cbn [snd].
    replace (i + common_run (drop i w1) (drop j w2) - i)
      with (common_run (drop i w1) (drop j w2)) by lia.
    exists (take i w1), (drop (common_run (drop i w1) (drop j w2)) (drop i w1)),
      (take j w2), (drop (common_run (drop i w1) (drop j w2)) (drop j w2)).
    split; [apply take_drop_infix|].
    rewrite common_run_take. apply take_drop_infix. }
  assert (Houter : forall is_ st, good st ->
            good (fold_left
                    (fun st i =>
                       fold_left
                         (fun (st : nat * list str) j =>
                            let '(max_length, best_sequence) := st in
                            let length_ :=
                              common_run (drop i w1) (drop j w2) in
                            if max_length <? length_
                            then (length_, PyStr.slice i (i + length_) w1)
                            else st) (seq 0 (length w2)) st) is_ st)).
  { induction is_ as [|i is_ IH]; intros st Hst; [exact Hst|].
    cbn [fold_left]. apply IH, Hinner, Hst. }
  apply (Houter (seq 0 (length w1)) (0, [])).
  exists [], w1, [], w2. split; reflexivity.
Qed.

(** The brute-force scan computes a maximum over all pairs of offsets. *)
Lemma fold_max_spec {X} (f : X -> nat) (l : list X) :
  forall m0,
    let r := fold_left (fun m x => Nat.max m (f x)) l m0 in
    m0 <= r /\ (forall x, In x l -> f x <= r)
    /\ (r = m0 \/ exists x, In x l /\ r = f x).
Proof.
  induction l as [|x l IH]; intros m0; cbn [fold_left].
  - cbv zeta. split; [lia|]. split; [intros x []|now left].
  - destruct (IH (Nat.max m0 (f x))) as (Hle & Hall & Hex). cbv zeta.
    split; [lia|]. split.
    + intros y [<-|Hy]; [lia|auto].
    + destruct Hex as [Hr|[y [Hy Hr]]].
      * destruct (Nat.max_spec m0 (f x)) as [[_ E]|[_ E]].
        -- right. exists x. split; [now left|]. rewrite Hr. exact E.
        -- left. rewrite Hr. exact E.
      * right. exists y. split; [now right|exact Hr].
Qed.

Lemma fold_nested_prod {X Y} (g : nat -> X -> Y -> nat) (xs : list X)
    (ys : list Y) :
  forall m0,
    fold_left (fun m x => fold_left (fun m y => g m x y) ys m) xs m0
    = fold_left (fun m xy => g m (fst xy) (snd xy)) (list_prod xs ys) m0.
Proof.
  induction xs as [|x xs IH]; intros m0; [reflexivity|].
  cbn [fold_left list_prod]. rewrite fold_left_app, <- IH.
  assert (E : forall m,
             fold_left (fun m xy => g m (fst xy) (snd xy))
               (map (fun y => (x, y)) ys) m
             = fold_left (fun m y => g m x y) ys m).
  { clear IH. induction ys as [|y ys IHy]; intros m; [reflexivity|].
    cbn [map fold_left fst snd]. apply IHy. }
  now rewrite E.
Qed.

Lemma max_common_length_spec (a b : list str) :
  (forall i j, i < length a -> j < length b ->
     common_run (drop i a) (drop j b) <= max_common_length a b)
  /\ (max_common_length a b = 0
      \/ exists i j, i < length a /\ j < length b
           /\ max_common_length a b = common_run (drop i a) (drop j b)).
Proof.
  unfold max_common_length.
  rewrite (fold_nested_prod
             (fun m i j => Nat.max m (common_run (drop i a) (drop j b)))).
  destruct (fold_max_spec
              (fun ij => common_run (drop (fst ij) a) (drop (snd ij) b))
              (list_prod (seq 0 (length a)) (seq 0 (length b))) 0)
    as (_ & Hall & Hex).
  cbv zeta in Hall, Hex. split.
  - intros i j Hi Hj. apply (Hall (i, j)). apply in_prod; apply in_seq; lia.
  - destruct Hex as [H|[[i j] [Hin H]]]; [now left|right].
    apply in_prod_iff in Hin as [Hi Hj]. apply in_seq in Hi, Hj.
    exists i, j. simpl in H. repeat split; first [lia|exact H].
Qed.

Lemma max_common_length_le (a b : list str) :
  max_common_length a b <= max_common_length b a.
Proof.
  destruct (max_common_length_spec a b) as [_ [->|(i & j & Hi & Hj & ->)]];
    [lia|].
  rewrite common_run_sym. now apply max_common_length_spec.
Qed.

Lemma max_common_length_sym (a b : list str) :
  max_common_length a b = max_common_length b a.
Proof.
  pose proof (max_common_length_le a b).
  pose proof (max_common_length_le b a). lia.
Qed.

(** X12: the similarity of two texts does not depend on their order. *)
Theorem calculate_text_similarity_symmetric (text1 text2 : str) :
  calculate_text_similarity text1 text2 = calculate_text_similarity text2 text1.
Proof.
  unfold calculate_text_similarity.
  destruct text1 as [|c1 t1], text2 as [|c2 t2]; try reflexivity.
  set (a := PyStr.strip (PyStr.lower (c1 :: t1))).
  set (b := PyStr.strip (PyStr.lower (c2 :: t2))).
  rewrite (orb_comm (PyStr.contains a b)).
  set (A := PyStr.word_set (PyStr.split a)).
  set (B := PyStr.word_set (PyStr.split b)).
  rewrite (orb_comm (size A =? 0)).
  assert (Hi : A ∩ B = B ∩ A) by apply (comm_L (∩)).
  assert (Hu : A ∪ B = B ∪ A) by apply (comm_L (∪)).
  rewrite Hi, Hu, (max_common_length_sym (PyStr.split a)).
  reflexivity.
Qed.

Lemma calculate_text_similarity_ge_0 (text1 text2 : str) :
  (0 <= calculate_text_similarity text1 text2)%Q.
Proof.
  unfold calculate_text_similarity.
  destruct text1 as [|c1 t1]; [discriminate|].
  destruct text2 as [|c2 t2]; [discriminate|].
  destruct (_ || _); [discriminate|].
  destruct (_ || _); [discriminate|].
  destruct (_ =? 0); [discriminate|].
  set (base := (Z.of_nat _ # Pos.of_nat _)%Q).
  assert (Hbase : (0 <= base)%Q) by (unfold base, Qle; simpl; lia).
  destruct (3 <=? _).
  - destruct (Qlt_le_dec (base + (2 # 10)) 1) as [Hlt|_]; [|discriminate].
    apply (Qle_trans _ base); [exact Hbase|].
    rewrite <- (Qplus_0_r base) at 1. apply Qplus_le_r. discriminate.
  - destruct (Qlt_le_dec base 1) as [Hlt|_]; [exact Hbase|discriminate].
Qed.

Lemma calculate_text_similarity_le_1 (text1 text2 : str) :
  (calculate_text_similarity text1 text2 <= 1)%Q.
Proof.
  unfold calculate_text_similarity.
  destruct text1 as [|c1 t1]; [discriminate|].
  destruct text2 as [|c2 t2]; [discriminate|].
  destruct (_ || _); [discriminate|].
  destruct (_ || _); [discriminate|].
  destruct (_ =? 0); [discriminate|].
  destruct (3 <=? _).
  - destruct (Qlt_le_dec _ 1) as [Hlt|_]; [|discriminate].
    now apply Qlt_le_weak.
  - destruct (Qlt_le_dec _ 1) as [Hlt|_]; [|discriminate].
    now apply Qlt_le_weak.
Qed.

(** X13: the similarity lies between 0 and 1. *)
Theorem calculate_text_similarity_range (text1 text2 : str) :
  (0 <= calculate_text_similarity text1 text2)%Q
  /\ (calculate_text_similarity text1 text2 <= 1)%Q.
Proof.
  split;
    [apply calculate_text_similarity_ge_0|apply calculate_text_similarity_le_1].
Qed.

(** * Further properties: the segment merger and the artifact checks *)

Lemma min_of_In (x : Q) (l : list Q) : In (min_of x l) (x :: l).
Proof.
  unfold min_of. revert x. induction l as [|y l IH]; intros x; [now left|].
  cbn [fold_left]. destruct (Qlt_le_dec y x).
  - right. apply IH.
  - destruct (IH x) as [H|H]; [left; exact H|right; right; exact H].
Qed.

Lemma max_of_In (x : Q) (l : list Q) : In (max_of x l) (x :: l).
Proof.
  unfold max_of. revert x. induction l as [|y l IH]; intros x; [now left|].
  cbn [fold_left]. destruct (Qlt_le_dec x y).
  - right. apply IH.
  - destruct (IH x) as [H|H]; [left; exact H|right; right; exact H].
Qed.

(** A merged group takes its start and its end from members of the group. *)
Lemma merge_group_bounds (seg1 : Segment) (similar : list Segment)
    (pool : list Segment) :
  In seg1 pool -> (forall g, In g similar -> In g pool) ->
  In (start (merge_group seg1 similar)) (map start pool)
  /\ In (end_ (merge_group seg1 similar)) (map end_ pool).
Proof.
  intros H1 Hsim. unfold merge_group.
  destruct similar as [|a [|b l]]; try (split; now apply in_map).
  cbn [start end_ tl].
  assert (Htl : forall g, In g (b :: l) -> In g pool).
  { intros g Hg. apply Hsim. now right. }
  split.
  - destruct (min_of_In (start seg1) (map start (b :: l))) as [<-|H];
      [now apply in_map|].
    apply in_map_iff in H as [g [<- Hg]]. apply in_map. auto.
  - destruct (max_of_In (end_ seg1) (map end_ (b :: l))) as [<-|H];
      [now apply in_map|].
    apply in_map_iff in H as [g [<- Hg]]. apply in_map. auto.
Qed.

Lemma merge_step_bounds (thr : Q) (valid : list Segment)
    (st : list Segment * gset nat) (entry : nat * Segment) :
  In (snd entry) valid ->
  (fst (merge_step thr valid st entry) = fst st
   \/ exists out,
        fst (merge_step thr valid st entry) = fst st ++ [out]
        /\ In (start out) (map start valid)
        /\ In (end_ out) (map end_ valid)).
Proof.
  intros Hentry. destruct st as [merged processed].
  destruct entry as [i seg1]. unfold merge_step.
  destruct (bool_decide (i ∈ processed)); [now left|]. right.
  pose proof (collect_similar_loop thr seg1 valid
                (enumerate_from (i + 1) (drop (i + 1) valid))) as Hloop.
  specialize (Hloop ltac:(intros [j s] He; simpl;
                          apply enumerate_from_In in He;
                          now apply In_drop in He)
                ([seg1], {[i]} ∪ processed)
                ltac:(simpl; intros g [<-|[]]; exact Hentry)).
  destruct (fold_left _ _ _) as [similar processed'].
  simpl in *. exists (merge_group seg1 similar). split; [reflexivity|].
  now apply merge_group_bounds.
Qed.

Lemma merge_loop_bounds (thr : Q) (valid : list Segment)
    (l : list (nat * Segment)) :
  (forall e, In e l -> In (snd e) valid) ->
  forall st, exists r,
    fst (fold_left (merge_step thr valid) l st) = fst st ++ r
    /\ length r <= length l
    /\ forall out, In out r ->
         In (start out) (map start valid) /\ In (end_ out) (map end_ valid).
Proof.
  induction l as [|e l IH]; intros Hl st; cbn [fold_left].
  - exists []. rewrite app_nil_r. split; [reflexivity|].
    split; [simpl; lia|intros out []].
  - destruct (IH ltac:(intros e' He'; apply Hl; now right)
                (merge_step thr valid st e)) as (r & Hr & Hlen & Hb).
    rewrite Hr.
    destruct (merge_step_bounds thr valid st e ltac:(apply Hl; now left))
      as [->|(out & -> & Ho)].
    + exists r. split; [reflexivity|]. split; [simpl; lia|exact Hb].
    + exists (out :: r). rewrite <- app_assoc. split; [reflexivity|].
      split; [simpl; lia|]. intros o [<-|H]; auto.
Qed.

Lemma merge_valid_bounds (thr : Q) (segments : list Segment) :
  length (merge_valid thr segments) <= length segments
  /\ forall out, In out (merge_valid thr segments) ->
       In (start out) (map start segments)
       /\ In (end_ out) (map end_ segments).
Proof.
  unfold merge_valid.
  set (valid := List.filter valid_segment segments).
  destruct (merge_loop_bounds thr valid (enumerate valid)
              ltac:(intros [i s] He; simpl; unfold enumerate in He;
                    now apply enumerate_from_In in He) ([], ∅))
    as (r & -> & Hlen & Hb).
  simpl. split.
  - unfold enumerate in Hlen.
    rewrite <- (length_map snd), enumerate_from_snd in Hlen.
    pose proof (List.filter_length_le valid_segment segments).
    fold valid in H. lia.
  - intros out Ho. destruct (Hb out Ho) as [Hs He].
    assert (Hsub : forall x, In x valid -> In x segments).
    { intros x Hx. now apply filter_In in Hx as [Hx _]. }
    split.
    + apply in_map_iff in Hs as [g [<- Hg]]. apply in_map. auto.
    + apply in_map_iff in He as [g [<- Hg]]. apply in_map. auto.
Qed.

(** X14: the segment merger returns at most as many segments as it was
    given, and every returned segment starts where some input segment
    starts and ends where some input segment ends, with or without a
    target timestamp. *)
Theorem merge_similar_segments_bounds (segments : list Segment)
    (similarity_threshold : Q) (target_timestamp : option Q) :
  length (merge_similar_segments segments similarity_threshold target_timestamp)
  <= length segments
  /\ forall out,
       In out (merge_similar_segments segments similarity_threshold
                 target_timestamp) ->
       In (start out) (map start segments)
       /\ In (end_ out) (map end_ segments).
Proof.
  unfold merge_similar_segments.
  assert (Hid : length segments <= length segments
                /\ forall out, In out segments ->
                     In (start out) (map start segments)
                     /\ In (end_ out) (map end_ segments)).
  { split; [lia|]. intros out H. split; now apply in_map. }
  destruct (length segments <=? 1); [exact Hid|].
  destruct target_timestamp as [t|]; [|apply merge_valid_bounds].
  set (target := List.filter _ segments).
  assert (Hsub : forall x, In x target -> In x segments).
  { intros x Hx. now apply filter_In in Hx as [Hx _]. }
  pose proof (List.filter_length_le
                (fun seg => Qle_bool (Qabs (start seg - t)) (5 # 10))
                segments) as Hlen.
  fold target in Hlen.
  destruct (merge_valid_bounds similarity_threshold target) as [Hl Hb].
  destruct target as [|s0 target'] eqn:Et; [exact Hid|].
  split; [lia|]. intros out Ho. destruct (Hb out Ho) as [Hs He]. split.
  - apply in_map_iff in Hs as [g [<- Hg]]. apply in_map. auto.
  - apply in_map_iff in He as [g [<- Hg]]. apply in_map. auto.
Qed.

(** The lists of [utils.py] are part of those of [phrase_filtering.py]. *)
Lemma utils_lists_included (ind : str) :
  In ind (Utils.whisper_prompt_indicators ++ Utils.suspicious_patterns) ->
  In ind (whisper_prompt_indicators ++ suspicious_patterns).
Proof.
  assert (H : forallb
                (fun i =>
                   existsb (PyStr.eqb i)
                     (whisper_prompt_indicators ++ suspicious_patterns))
                (Utils.whisper_prompt_indicators ++ Utils.suspicious_patterns)
              = true) by (vm_compute; reflexivity).
  rewrite forallb_forall in H. intros Hin. now apply In_by_eqb, H.
Qed.

(** X15: whatever the artifact check of [utils.py] flags, the artifact check
    of [phrase_filtering.py] flags too. *)
Theorem utils_artifact_is_artifact (text : str) :
  Utils.is_whisper_artifact text = true -> is_whisper_artifact text = true.
Proof.
  unfold Utils.is_whisper_artifact.
  destruct ((length text =? 0) || _) eqn:Eguard; [discriminate|].
  apply orb_false_iff in Eguard as [Hlen _].
  destruct text as [|c t]; [discriminate Hlen|].
  set (text_lower := PyStr.strip (PyStr.lower (c :: t))).
  intros H.
  assert (Hex : exists ind,
             In ind (Utils.whisper_prompt_indicators
                     ++ Utils.suspicious_patterns)
             /\ PyStr.contains ind text_lower = true).
  { destruct (existsb _ Utils.whisper_prompt_indicators) eqn:E.
    - apply existsb_exists in E as [ind [Hin Hc]]. exists ind.
      split; [apply in_or_app; now left|exact Hc].
    - apply existsb_exists in H as [ind [Hin Hc]]. exists ind.
      split; [apply in_or_app; now right|exact Hc]. }
  destruct Hex as [ind [Hin Hc]]. apply utils_lists_included in Hin.
  unfold is_whisper_artifact. cbv zeta. fold text_lower.
  apply in_app_or in Hin as [Hin|Hin].
  - replace (existsb _ whisper_prompt_indicators) with true; [reflexivity|].
    symmetry. apply existsb_exists. eauto.
  - destruct (existsb _ whisper_prompt_indicators); [reflexivity|].
    replace (existsb _ suspicious_patterns) with true; [reflexivity|].
    symmetry. apply existsb_exists. eauto.
Qed.

(** * Further properties: word overlap, occurrences and estimates *)

(** X16: the word-overlap similarity of [utils.py] does not depend on the
    order of its arguments and lies between 0 and 1. *)
Theorem calculate_similarity_symmetric_range (text1 text2 : str) :
  calculate_similarity text1 text2 = calculate_similarity text2 text1
  /\ (0 <= calculate_similarity text1 text2)%Q
  /\ (calculate_similarity text1 text2 <= 1)%Q.
Proof.
  unfold calculate_similarity.
  destruct text1 as [|c1 t1], text2 as [|c2 t2];
    try (split; [reflexivity|split; discriminate]).
  set (A := PyStr.word_set (PyStr.split (PyStr.lower (c1 :: t1)))).
  set (B := PyStr.word_set (PyStr.split (PyStr.lower (c2 :: t2)))).
  assert (Hi : A ∩ B = B ∩ A) by apply (comm_L (∩)).
  assert (Hu : A ∪ B = B ∪ A) by apply (comm_L (∪)).
  split; [now rewrite (orb_comm (size A =? 0)), Hi, Hu|].
  destruct (_ || _); [split; discriminate|].
  destruct (0 <? size (A ∪ B)) eqn:E; [|split; discriminate].
  apply Nat.ltb_lt in E.
  assert (Hle : size (A ∩ B) <= size (A ∪ B)).
  { apply subseteq_size. intros x Hx. apply elem_of_intersection in Hx.
    apply elem_of_union. left. tauto. }
  unfold Qle. simpl. split; lia.
Qed.

Lemma window_matches_prefix (pw rest : list str) :
  window_matches pw rest = true <-> exists after, rest = pw ++ after.
Proof.
  revert rest. induction pw as [|w pw IH]; intros rest; simpl.
  - split; [intros _; now exists rest|reflexivity].
  - destruct rest as [|r rest]; [split; [discriminate|intros [a [=]]]|].
    rewrite andb_true_iff, PyStrFacts.eqb_eq, IH. split.
    + intros [-> [after ->]]. now exists after.
    + intros [after [= -> ->]]. split; [reflexivity|now exists after].
Qed.

(** X17: [count_phrase_occurrences] is positive exactly when the lowered
    words of the phrase occur, consecutively and in order, among the
    lowered transcript words. *)
Theorem count_phrase_occurrences_positive (phrase : str)
    (transcript_words : list str) :
  0 < count_phrase_occurrences phrase transcript_words
  <-> PyStr.split (PyStr.lower phrase) <> []
      /\ exists before after,
           map PyStr.lower transcript_words
           = before ++ PyStr.split (PyStr.lower phrase) ++ after.
Proof.
  unfold count_phrase_occurrences.
  set (pw := PyStr.split (PyStr.lower phrase)).
  set (tl := map PyStr.lower transcript_words).
  assert (Hcount : forall l (f : nat -> bool),
             0 < length (List.filter f l)
             <-> exists i, In i l /\ f i = true).
  { intros l f. induction l as [|x l IH]; simpl.
    - split; [lia|intros [i [[] _]]].
    - destruct (f x) eqn:E; simpl.
      + split; [intros _; exists x; auto|lia].
      + rewrite IH. split; intros [i [Hi Hf]]; exists i.
        * auto.
        * destruct Hi as [<-|Hi]; [congruence|auto]. }
  destruct phrase as [|c p].
  { simpl. split; [lia|]. intros [H _]. exfalso. apply H. reflexivity. }
  destruct transcript_words as [|t ts].
  { simpl. split; [lia|]. intros [Hne [before [after H]]].
    destruct before; [|discriminate H]. simpl in H.
    destruct pw; [congruence|discriminate H]. }
  cbn [is_empty is_empty_list orb].
  destruct (length pw =? 0) eqn:Elen.
  { apply Nat.eqb_eq, length_zero_iff_nil in Elen.
    split; [lia|]. intros [H _]. contradiction. }
  apply Nat.eqb_neq in Elen. rewrite Hcount. split.
  - intros [i [Hi Hm]]. split; [intros E; rewrite E in Elen; now apply Elen|].
    apply window_matches_prefix in Hm as [after Hafter].
    exists (take i tl), after.
    rewrite <- Hafter. symmetry. apply firstn_skipn.
  - intros [_ [before [after H]]]. exists (length before). split.
    + apply in_seq. rewrite H, !List.length_app. lia.
    + apply window_matches_prefix. exists after.
      rewrite H. now rewrite drop_app_length.
Qed.

(** X18: there are never more occurrences than transcript words. *)
Theorem count_phrase_occurrences_bound (phrase : str)
    (transcript_words : list str) :
  count_phrase_occurrences phrase transcript_words <= length transcript_words.
Proof.
  unfold count_phrase_occurrences.
  destruct (_ || _); [lia|].
  destruct (length _ =? 0) eqn:E; [lia|]. apply Nat.eqb_neq in E.
  etransitivity; [apply List.filter_length_le|].
  rewrite length_seq, length_map. lia.
Qed.

Lemma startswith_length (sub l : str) :
  PyStr.startswith sub l = true -> length sub <= length l.
Proof.
  revert l. induction sub as [|x sub IH]; intros l E; [simpl; lia|].
  destruct l as [|y l]; [discriminate E|]. simpl in E.
  apply andb_true_iff in E as [_ E]. apply IH in E. simpl. lia.
Qed.

Lemma find_bound (sub s : str) (i : nat) :
  PyStr.find sub s = Some i -> i + length sub <= length s.
Proof.
  revert i. induction s as [|c s IH]; intros i; cbn [PyStr.find].
  - destruct (PyStr.startswith sub []) eqn:E; [|discriminate].
    intros [= <-]. apply startswith_length in E. lia.
  - destruct (PyStr.startswith sub (c :: s)) eqn:E.
    + intros [= <-]. apply startswith_length in E. lia.
    + destruct (PyStr.find sub s) as [k|]; [|discriminate].
      intros [= <-]. specialize (IH k eq_refl). simpl. lia.
Qed.

Lemma position_timestamp_range (i : nat) (text : str) (d : Q) :
  i <= length text -> (0 <= d)%Q ->
  (0 <= position_timestamp i text d)%Q /\ (position_timestamp i text d <= d)%Q.
Proof.
  intros Hi Hd. unfold position_timestamp.
  destruct (length text) as [|n] eqn:E; [split; [discriminate|exact Hd]|].
  destruct d as [dn dd]. unfold Qle in *. simpl in *.
  set (L := Pos.of_nat (S n)) in *.
  assert (HL : (Z.pos L = Z.of_nat (S n))%Z) by (unfold L; lia).
  rewrite !Pos2Z.inj_mul, HL. split; nia.
Qed.

(** X19: for a text of ASCII characters and a duration that is not
    negative, the estimated timestamp of a word and of a phrase lies between
    0 and the duration; the estimates are 0 when the lowered keypoint is not
    found in the lowered text, and when the text is empty. *)
Theorem estimates_within_duration (keypoint text : str) (audio_duration : Q) :
  PyStr.isascii text = true ->
  (0 <= audio_duration)%Q ->
  ((0 <= estimate_word_timestamp keypoint text audio_duration)%Q
   /\ (estimate_word_timestamp keypoint text audio_duration
       <= audio_duration)%Q
   /\ (0 <= estimate_phrase_timestamp keypoint text audio_duration)%Q
   /\ (estimate_phrase_timestamp keypoint text audio_duration
       <= audio_duration)%Q)
  /\ (PyStr.find (PyStr.lower keypoint) (PyStr.lower text) = None ->
      estimate_word_timestamp keypoint text audio_duration = 0%Q
      /\ estimate_phrase_timestamp keypoint text audio_duration = 0%Q)
  /\ (text = [] ->
      estimate_word_timestamp keypoint text audio_duration = 0%Q
      /\ estimate_phrase_timestamp keypoint text audio_duration = 0%Q).
Proof.
  intros _ Hd.
  assert (Hfound : forall i,
             PyStr.find (PyStr.lower keypoint) (PyStr.lower text) = Some i ->
             (0 <= position_timestamp i text audio_duration)%Q
             /\ (position_timestamp i text audio_duration
                 <= audio_duration)%Q).
  { intros i Hi. apply position_timestamp_range; [|exact Hd].
    apply find_bound in Hi. unfold PyStr.lower in Hi.
    rewrite !length_map in Hi. lia. }
  assert (H0 : (0 <= 0)%Q /\ (0 <= audio_duration)%Q)
    by (split; [discriminate|exact Hd]).
  unfold estimate_word_timestamp, estimate_phrase_timestamp. cbv zeta.
  split; [|split].
  - destruct (PyStr.find _ _) as [i|].
    + destruct (Hfound i eq_refl) as [Hlo Hhi].
      destruct (0 <? _); tauto.
    + destruct (0 <? _); tauto.
  - intros ->. destruct (0 <? _); split; reflexivity.
  - intros ->. simpl.
    destruct (PyStr.startswith (PyStr.lower keypoint) []);
      destruct (0 <? _); split; reflexivity.
Qed.

Lemma estimates_within_duration_witness :
  ((0 <= estimate_word_timestamp (py "zit") (py "de kat zit") 90)%Q
   /\ (estimate_word_timestamp (py "zit") (py "de kat zit") 90 <= 90)%Q
   /\ (0 <= estimate_phrase_timestamp (py "zit") (py "de kat zit") 90)%Q
   /\ (estimate_phrase_timestamp (py "zit") (py "de kat zit") 90 <= 90)%Q)
  /\ (PyStr.find (PyStr.lower (py "zit")) (PyStr.lower (py "de kat zit"))
      = None ->
      estimate_word_timestamp (py "zit") (py "de kat zit") 90 = 0%Q
      /\ estimate_phrase_timestamp (py "zit") (py "de kat zit") 90 = 0%Q)
  /\ (py "de kat zit" = [] ->
      estimate_word_timestamp (py "zit") (py "de kat zit") 90 = 0%Q
      /\ estimate_phrase_timestamp (py "zit") (py "de kat zit") 90 = 0%Q).
Proof.
  apply (estimates_within_duration (py "zit") (py "de kat zit") 90).
  - vm_compute. reflexivity.
  - discriminate.
Defined.

(** X20: on a phrase of ASCII characters [is_complete_thought] does not
    depend on letter case. *)
Theorem is_complete_thought_ignores_case (phrase : str) :
  PyStr.isascii phrase = true ->
  is_complete_thought (PyStr.lower phrase) = is_complete_thought phrase.
Proof.
  intros _. unfold is_complete_thought.
  rewrite PyStrFacts.lower_idem, PyStrFacts.strip_lower.
  replace (is_empty (PyStr.lower phrase)) with (is_empty phrase)
    by (destruct phrase; reflexivity).
  unfold PyStr.lower at 1. rewrite length_map. reflexivity.
Qed.

Lemma is_complete_thought_ignores_case_witness :
  is_complete_thought (PyStr.lower (py "Nieuwe Corona Maatregelen")) = true
  /\ is_complete_thought (PyStr.lower (py "Nieuwe Corona Maatregelen"))
     = is_complete_thought (py "Nieuwe Corona Maatregelen").
Proof.
  split; [vm_compute; reflexivity|].
  apply (is_complete_thought_ignores_case (py "Nieuwe Corona Maatregelen")).
  vm_compute. reflexivity.
Defined.

(** * Further properties: earlier phrase helpers, music filter, results *)

Lemma fromkeys_spec (words : list str) :
  forall seen,
    List.NoDup (fromkeys seen words)
    /\ forall w, In w (fromkeys seen words) <-> In w words /\ ~ In w seen.
Proof.
  induction words as [|x words IH]; intros seen; simpl.
  - split; [constructor|tauto].
  - destruct (existsb (PyStr.eqb x) seen) eqn:E.
    + apply existsb_eqb_In in E. destruct (IH seen) as [Hnd Hin].
      split; [exact Hnd|]. intros w. rewrite Hin. split; [tauto|].
      intros [[<-|Hw] Hs]; [contradiction|tauto].
    + assert (Hx : ~ In x seen).
      { intros H. apply existsb_eqb_In in H. congruence. }
      destruct (IH (x :: seen)) as [Hnd Hin]. split.
      * constructor; [|exact Hnd]. rewrite Hin. simpl. tauto.
      * intros w. simpl. rewrite Hin. simpl. split.
        -- intros [<-|[Hw Hs]]; [tauto|]. tauto.
        -- intros [[<-|Hw] Hs]; [now left|].
           destruct (decide (x = w)) as [->|Hne]; [now left|right]. tauto.
Qed.

(** X21: the earlier [can_merge_phrases] does not depend on the order of the
    two phrases. *)
Theorem can_merge_phrases_symmetric (phrase1 phrase2 : str) :
  Earlier.can_merge_phrases phrase1 phrase2
  = Earlier.can_merge_phrases phrase2 phrase1.
Proof.
  unfold Earlier.can_merge_phrases.
  set (A := PyStr.word_set (PyStr.split (PyStr.lower phrase1))).
  set (B := PyStr.word_set (PyStr.split (PyStr.lower phrase2))).
  assert (Hi : A ∩ B = B ∩ A) by apply (comm_L (∩)).
  assert (Hu : A ∪ B = B ∪ A) by apply (comm_L (∪)).
  cbv zeta. now rewrite Hi, Hu.
Qed.

(** X22: a phrase merged by the earlier [merge_two_phrases] has no word
    twice, and its words are exactly the lowered words of the two
    phrases. *)
Theorem earlier_merge_words (phrase1 phrase2 merged : str) :
  Earlier.merge_two_phrases phrase1 phrase2 = Some merged ->
  List.NoDup (PyStr.split merged)
  /\ forall w,
       In w (PyStr.split merged)
       <-> In w (PyStr.split (PyStr.lower phrase1))
           \/ In w (PyStr.split (PyStr.lower phrase2)).
Proof.
  unfold Earlier.merge_two_phrases.
  set (w1 := PyStr.split (PyStr.lower phrase1)).
  set (w2 := PyStr.split (PyStr.lower phrase2)).
  destruct (2 <=? _); [|discriminate]. intros [= <-].
  destruct (fromkeys_spec (w1 ++ w2) []) as [Hnd Hin].
  change (py " ") with [PyStr.space]. rewrite WordFacts.split_join.
  - split; [exact Hnd|]. intros w. rewrite Hin, in_app_iff. simpl. tauto.
  - apply List.Forall_forall. intros w Hw. apply Hin in Hw as [Hw _].
    pose proof (WordFacts.split_clean (PyStr.lower phrase1)) as H1.
    pose proof (WordFacts.split_clean (PyStr.lower phrase2)) as H2.
    rewrite List.Forall_forall in H1, H2.
    apply in_app_or in Hw as [Hw|Hw]; auto.
Qed.

Lemma earlier_merge_words_witness :
  List.NoDup (PyStr.split (py "de kat zit hier op mat"))
  /\ forall w,
       In w (PyStr.split (py "de kat zit hier op mat"))
       <-> In w (PyStr.split (PyStr.lower (py "De kat zit hier")))
           \/ In w (PyStr.split (PyStr.lower (py "kat zit op de mat"))).
Proof.
  apply (earlier_merge_words (py "De kat zit hier") (py "kat zit op de mat")).
  vm_compute. reflexivity.
Defined.

(** X23: filtering music words out of a text that was already filtered with
    the same patterns changes nothing. *)
Theorem filter_music_content_idempotent (text : str)
    (music_patterns : list (str * list str)) :
  filter_music_content (filter_music_content text music_patterns)
    music_patterns
  = filter_music_content text music_patterns.
Proof.
  unfold filter_music_content. change (py " ") with [PyStr.space].
  set (keep := fun word => negb (is_music_word music_patterns word)).
  rewrite WordFacts.split_join.
  - f_equal. induction (PyStr.split text) as [|w ws IH]; [reflexivity|].
    simpl. destruct (keep w) eqn:E; [|exact IH].
    simpl. now rewrite E, IH.
  - pose proof (WordFacts.split_clean text) as H.
    rewrite List.Forall_forall in *. intros w Hw.
    apply filter_In in Hw as [Hw _]. auto.
Qed.

(** X24: [process_keypoints] keeps the kinds apart: a returned word has no
    blank, a returned phrase has one, both are keys of the input, and the
    total is the number of words plus the number of phrases. *)
Theorem process_keypoints_kinds (keypoint_times : list (str * list Q))
    (transcript_text : str) :
  (forall w, In w (words (process_keypoints keypoint_times transcript_text)) ->
     has_blank w = false /\ In w (map fst keypoint_times))
  /\ (forall p,
        In p (phrases (process_keypoints keypoint_times transcript_text)) ->
        has_blank p = true /\ In p (map fst keypoint_times))
  /\ total_keypoints (process_keypoints keypoint_times transcript_text)
     = length (words (process_keypoints keypoint_times transcript_text))
       + length (phrases (process_keypoints keypoint_times transcript_text)).
Proof.
  unfold process_keypoints. cbn [words phrases total_keypoints].
  set (pwt := List.filter
                (fun e => has_blank (fst e) && negb (is_empty_list (snd e)))
                keypoint_times).
  split; [|split].
  - intros w Hw. apply in_map_iff in Hw as [[w' ts] [<- He]].
    apply filter_In in He as [He Hf]. simpl in *.
    apply andb_true_iff in Hf as [Hf _]. apply negb_true_iff in Hf.
    split; [exact Hf|]. apply in_map_iff. now exists (w', ts).
  - intros p Hp.
    assert (Hsel : In p (map fst pwt)).
    { destruct pwt as [|e pwt'] eqn:E; [destruct Hp|]. rewrite <- E in *.
      apply in_map_iff in Hp as [[p' ts] [<- He]].
      now apply (deduplicate_phrases_In pwt p' ts). }
    apply in_map_iff in Hsel as [[p' ts] [<- He]].
    apply filter_In in He as [He Hf]. simpl in *.
    apply andb_true_iff in Hf as [Hf _].
    split; [exact Hf|]. apply in_map_iff. now exists (p', ts).
  - now rewrite !length_map.
Qed.

Lemma utils_artifact_is_artifact_witness :
  is_whisper_artifact (py "Focus op spraak en gesprekken") = true.
Proof.
  apply utils_artifact_is_artifact. vm_compute. reflexivity.
Defined.

Lemma collect_similar_none (thr : Q) (seg1 : Segment)
    (l : list (nat * Segment)) (st : list Segment * gset nat) :
  (1 < thr)%Q -> fold_left (collect_similar thr seg1) l st = st.
Proof.
  intros Hthr. revert st. induction l as [|[j seg2] l IH]; intros st;
    [reflexivity|].
  cbn [fold_left]. rewrite <- (IH st) at 2. f_equal.
  destruct st as [similar processed]. unfold collect_similar.
  destruct (bool_decide (j ∈ processed)); [reflexivity|].
  destruct (Qle_bool thr _) eqn:E; [exfalso|reflexivity].
  apply Qle_bool_iff in E.
  pose proof (calculate_text_similarity_le_1 (text seg1) (text seg2)) as Hle.
  apply (Qlt_not_le _ _ Hthr). eapply Qle_trans; eassumption.
Qed.

Lemma merge_loop_none (thr : Q) (valid l : list Segment) :
  (1 < thr)%Q ->
  forall k st,
    (forall j, j ∈ snd st -> j < k) ->
    fst (fold_left (merge_step thr valid) (enumerate_from k l) st)
    = fst st ++ l.
Proof.
  intros Hthr. induction l as [|seg l IH]; intros k st Hst.
  - simpl. now rewrite app_nil_r.
  - cbn [enumerate_from fold_left]. rewrite IH.
    + destruct st as [merged processed]. unfold merge_step.
      rewrite bool_decide_eq_false_2
        by (intros H; apply Hst in H; lia).
      rewrite collect_similar_none by exact Hthr.
      simpl. now rewrite <- app_assoc.
    + destruct st as [merged processed]. unfold merge_step.
      rewrite bool_decide_eq_false_2
        by (intros H; apply Hst in H; lia).
      rewrite collect_similar_none by exact Hthr.
      simpl. intros j Hj. apply elem_of_union in Hj as [Hj|Hj].
      * apply elem_of_singleton in Hj. lia.
      * apply Hst in Hj. simpl in Hj. lia.
Qed.

(** X25: with a similarity threshold above 1 nothing is merged: of two or
    more segments the merger returns, in order, those that have text and
    are not artifacts. *)
Theorem merge_similar_segments_high_threshold (segments : list Segment)
    (similarity_threshold : Q) :
  (1 < similarity_threshold)%Q -> 2 <= length segments ->
  merge_similar_segments segments similarity_threshold None
  = List.filter valid_segment segments.
Proof.
  intros Hthr Hlen. unfold merge_similar_segments.
  destruct (length segments <=? 1) eqn:E; [apply Nat.leb_le in E; lia|].
  unfold merge_valid, enumerate. rewrite merge_loop_none; [reflexivity| |].
  - exact Hthr.
  - intros j Hj. simpl in Hj. now apply not_elem_of_empty in Hj.
Qed.

Lemma merge_similar_segments_high_threshold_witness :
  merge_similar_segments [prompt_segment; news_segment; news_segment]
    (11 # 10) None
  = List.filter valid_segment [prompt_segment; news_segment; news_segment].
Proof.
  apply merge_similar_segments_high_threshold.
  - reflexivity.
  - simpl. lia.
Defined.
(** * The fate of a phrase in the balancing, merging and nesting steps *)














(** The merger's exception occurs as well: of 21 passing candidates the
    seven-word phrase below is accepted for a merge, and afterwards it is
    neither returned nor a true sub-phrase of a returned phrase. *)
Lemma fused_phrase_dropped :
  In (py "de het een corona maatregelen nederland vandaag")
    (stopword_filtered fused_candidates sample_stopwords)
  /\ accepts (py "de het een corona maatregelen nederland vandaag")
       (py "ook corona maatregelen nederland van in op") = true
  /\ ~ In (py "de het een corona maatregelen nederland vandaag")
         (filter_phrases_robust fused_candidates sample_stopwords)
  /\ existsb
       (is_true_subphrase (py "de het een corona maatregelen nederland vandaag"))
       (filter_phrases_robust fused_candidates sample_stopwords) = false.
Proof.
  split; [|split; [|split]].
  - apply In_by_eqb. vm_compute. reflexivity.
  - vm_compute. reflexivity.
  - apply existsb_eqb_not_In. vm_compute. reflexivity.
  - vm_compute. reflexivity.
Qed.

(** What the merge test asks of an accepted pair. *)
Lemma accepts_spec (phrase other_phrase : str) :
  accepts phrase other_phrase = true ->
  3 <= length (PyStr.split (PyStr.strip (PyStr.lower phrase)))
  /\ 3 <= length (PyStr.split (PyStr.strip (PyStr.lower other_phrase)))
  /\ exists merged,
       merge_two_phrases phrase other_phrase
         (find_common_sequence
            (PyStr.split (PyStr.strip (PyStr.lower phrase)))
            (PyStr.split (PyStr.strip (PyStr.lower other_phrase))))
       = Some merged
       /\ merged <> []
       /\ length (PyStr.split (PyStr.strip (PyStr.lower phrase))) + 2
          <= word_count merged.
Proof.
  unfold accepts, try_merge.
  rewrite (bool_decide_eq_false_2 (1 ∈ (∅ : gset nat)))
    by apply not_elem_of_empty.
  cbn [Nat.eqb orb].
  set (pw := PyStr.split (PyStr.strip (PyStr.lower phrase))).
  set (ow := PyStr.split (PyStr.strip (PyStr.lower other_phrase))).
  destruct ((3 <=? length pw) && (3 <=? length ow)) eqn:E3;
    [|discriminate].
  destruct (_ <=? length (find_common_sequence pw ow)); [|discriminate].
  destruct (Qle_bool _ _); [|discriminate].
  destruct (merge_two_phrases _ _ _) as [merged|]; [|discriminate].
  destruct (negb (is_empty merged) && (length pw <? word_count merged)
            && (length pw + 1 <? word_count merged)) eqn:E; [|discriminate].
  intros _. apply andb_true_iff in E3 as [Hp Ho].
  apply Nat.leb_le in Hp, Ho.
  apply andb_true_iff in E as [E E2]. apply andb_true_iff in E as [E0 _].
  apply Nat.ltb_lt in E2.
  split; [exact Hp|]. split; [exact Ho|]. exists merged.
  split; [reflexivity|]. split; [|lia].
  intros ->. discriminate E0.
Qed.


